(** * FileTagging: the tag store of [app.py]

    A shallow embedding of [FileTagManager] (src/app.py): the in-memory
    dictionary from paths to tag lists, its mutation and query methods, the
    batch applier, the JSON snapshot with its retrying atomic replace, and
    the background save worker.

    Conventions.
    - For the manager's methods a Python [str] is a [string]; a
      character stands for the code point of the same number, so that
      part covers the code points below 256.  The snapshot's codec is
      modelled as well over Python strings in full, lists of code points
      (modules [PyJson] and [Unicode]).
    - A Python [dict] is a [gmap].  Python iterates a dict in insertion
      order, [map_to_list] in an order of its own; nothing below depends
      on which.
    - Paths follow the POSIX flavour of [pathlib] and [os.path]. *)

From Stdlib Require Import ZArith Ascii String.
From stdpp Require Import gmap strings list fin_maps pretty.

Set Warnings "-clear-no-such-hyp,-register-all".

Local Open Scope string_scope.
Local Open Scope list_scope.
Local Open Scope nat_scope.
Local Open Scope stdpp_scope.

(** ** Strings: [str.lower], [str.strip] *)

Module PyStr.

(** Code points below 256 for which [str.isspace] holds; these are the
    characters [str.strip()] removes. *)
Definition isspace (c : ascii) : bool :=
  let n := nat_of_ascii c in
  (((9 <=? n) && (n <=? 13)) || ((28 <=? n) && (n <=? 32))
   || (n =? 133) || (n =? 160))%nat.

(** [str.lower] on one code point below 256: A-Z and the capital letters
    of Latin-1 (192-214, 216-222) move up by 32. *)
Definition lower_char (c : ascii) : ascii :=
  let n := nat_of_ascii c in
  if (((65 <=? n) && (n <=? 90)) || ((192 <=? n) && (n <=? 214))
      || ((216 <=? n) && (n <=? 222)))%nat
  then ascii_of_nat (n + 32) else c.

Fixpoint lower (s : string) : string :=
  match s with
  | EmptyString => EmptyString
  | String c s' => String (lower_char c) (lower s')
  end.

Fixpoint lstrip (s : string) : string :=
  match s with
  | EmptyString => EmptyString
  | String c s' => if isspace c then lstrip s' else s
  end.

Fixpoint rstrip (s : string) : string :=
  match s with
  | EmptyString => EmptyString
  | String c s' =>
      match rstrip s' with
      | EmptyString => if isspace c then EmptyString else String c EmptyString
      | r => String c r
      end
  end.

Definition strip (s : string) : string := rstrip (lstrip s).

(** [tag.strip().lower()], as [add_tags] and [search_by_tags] apply it. *)
Definition normalize (tag : string) : string := lower (strip tag).

End PyStr.

(** ** Paths: [str(Path(p))] and [os.path.join] *)

Module PyPath.

Definition sep : ascii := "/"%char.

(** [s.split("/")] *)
Fixpoint split_sep (s : string) : list string :=
  match s with
  | EmptyString => [""]
  | String c s' =>
      if decide (c = sep) then "" :: split_sep s'
      else match split_sep s' with
           | x :: xs => String c x :: xs
           | [] => [String c ""]
           end
  end.

(** ["/".join(parts)] *)
Fixpoint join_sep (parts : list string) : string :=
  match parts with
  | [] => ""
  | [x] => x
  | x :: xs => x +:+ String sep (join_sep xs)
  end.

(** [posixpath.splitroot], without the drive (always empty on POSIX):
    no leading slash, no root; exactly two leading slashes, the root
    ["//"]; otherwise the root ["/"] and everything after the first
    slash. *)
Definition splitroot (p : string) : string * string :=
  match p with
  | String "/" (String "/" (String "/" r)) => ("/", String sep (String sep r))
  | String "/" (String "/" r) => ("//", r)
  | String "/" r => ("/", r)
  | _ => ("", p)
  end.

(** The components [pathlib] keeps: not empty and not ["."]. *)
Definition kept (x : string) : Prop := x ≠ "" ∧ x ≠ ".".

#[global] Instance kept_dec x : Decision (kept x).
Proof. unfold kept. apply _. Defined.

(** [str(Path(p))]: the root, then the kept components joined by one
    slash; the empty result is written ["."]. *)
Definition str_Path (p : string) : string :=
  let '(root, rel) := splitroot p in
  let s := root +:+ join_sep (filter kept (split_sep rel)) in
  if decide (s = "") then "." else s.

(** [os.path.join(a, b)] *)
Definition startswith_sep (s : string) : bool :=
  match s with String c _ => bool_decide (c = sep) | EmptyString => false end.

Fixpoint endswith_sep (s : string) : bool :=
  match s with
  | EmptyString => false
  | String c EmptyString => bool_decide (c = sep)
  | String _ s' => endswith_sep s'
  end.

Definition join (a b : string) : string :=
  if startswith_sep b then b
  else if bool_decide (a = "") || endswith_sep a then a +:+ b
  else a +:+ String sep b.

End PyPath.

(** ** The manager: state and operations *)

(** The fields of [FileTagManager] that the methods below read or write.
    [save_queue] counts the tokens in [_save_queue] (every token is
    [True]); [last_save] is [_last_save], in milliseconds. *)
Record manager := Manager {
  tags_db : gmap string (list string);
  save_queue : nat;
  last_save : Z;
  pending_changes : bool;
}.

Definition with_db (db : gmap string (list string)) (m : manager) : manager :=
  {| tags_db := db; save_queue := save_queue m; last_save := last_save m;
     pending_changes := pending_changes m |}.

(** [queue_save]: raise the flag (under the lock), then put a token. *)
Definition queue_save (m : manager) : manager :=
  {| tags_db := tags_db m; save_queue := S (save_queue m);
     last_save := last_save m; pending_changes := true |}.

(** [if filepath not in self.tags_db: self.tags_db[filepath] = []] *)
Definition ensure_entry (filepath : string) (db : gmap string (list string))
  : gmap string (list string) :=
  match db !! filepath with
  | Some _ => db
  | None => <[filepath := []]> db
  end.

(** One turn of [for tag in tags]: normalize, and append unless empty or
    already present.  The entry exists when the loop runs; a missing one
    would be a [KeyError], which the model shows as no change. *)
Definition add_one_tag (filepath : string) (db : gmap string (list string))
  (tag : string) : gmap string (list string) :=
  let tag := PyStr.normalize tag in
  match db !! filepath with
  | Some l =>
      if decide (tag ≠ "" ∧ tag ∉ l) then <[filepath := l ++ [tag]]> db else db
  | None => db
  end.

(** The body shared by [add_tags] and the inner loop of
    [add_tags_to_directory], for one stored key. *)
Definition tag_file (tags : list string) (db : gmap string (list string))
  (filepath : string) : gmap string (list string) :=
  foldl (add_one_tag filepath) (ensure_entry filepath db) tags.

Definition add_tags (filepath : string) (tags : list string) (m : manager)
  : manager :=
  let filepath := PyPath.str_Path filepath in
  queue_save (with_db (tag_file tags (tags_db m) filepath) m).

(** [list.remove(x)]: drop the first occurrence. *)
Fixpoint list_remove (x : string) (l : list string) : list string :=
  match l with
  | [] => []
  | y :: l' => if decide (x = y) then l' else y :: list_remove x l'
  end.

Definition remove_tag (filepath tag : string) (m : manager) : manager :=
  let filepath := PyPath.str_Path filepath in
  match tags_db m !! filepath with
  | Some l =>
      if decide (tag ∈ l) then
        let l' := list_remove tag l in
        let db := <[filepath := l']> (tags_db m) in
        let db := match l' with [] => delete filepath db | _ => db end in
        queue_save (with_db db m)
      else m
  | None => m
  end.

Definition get_tags (filepath : string) (m : manager) : list string :=
  default [] (tags_db m !! PyPath.str_Path filepath).

(** [all(tag in tags for tag in search_tags)] *)
Definition has_all (search_tags : list string) (tags : list string) : Prop :=
  Forall (λ tag, tag ∈ tags) search_tags.

#[global] Instance has_all_dec q tags : Decision (has_all q tags).
Proof. unfold has_all. apply _. Defined.

Definition search_by_tags (search_tags : list string) (m : manager)
  : list string :=
  let search_tags := PyStr.normalize <$> search_tags in
  (filter (λ kv, has_all search_tags kv.2) (map_to_list (tags_db m))).*1.

(** The manager [__init__] builds around a loaded dictionary. *)
Definition init_manager (db : gmap string (list string)) : manager :=
  {| tags_db := db; save_queue := 0; last_save := 0; pending_changes := false |}.

(** ** The batch applier *)

(** A directory as [os.walk] reads it: the names of its files, and its
    sub-directories by name.  A directory that does not exist walks like
    an empty one. *)
Inductive dirtree : Type :=
  | Dir (filenames : list string) (subdirs : list (string * dirtree)).

(** The list [files] that the two [for] loops over [os.walk(directory)]
    build: top-down, every [os.path.join(root, filename)]. *)
Fixpoint walk_files (root : string) (t : dirtree) : list string :=
  match t with
  | Dir filenames subdirs =>
      (PyPath.join root <$> filenames) ++
      (fix walk_subdirs (ds : list (string * dirtree)) : list string :=
         match ds with
         | [] => []
         | (name, sub) :: ds' =>
             walk_files (PyPath.join root name) sub ++ walk_subdirs ds'
         end) subdirs
  end.

Definition batch_size : nat := 100.
Arguments batch_size : simpl never.

(** The number of turns of [range(0, total, batch_size)]. *)
Definition batch_count (total : nat) : nat :=
  Nat.div (total + batch_size - 1) batch_size.

(** [range(0, stop, step)] *)
Definition py_range_step (stop step : nat) : list nat :=
  (λ k, k * step) <$> seq 0 (Nat.div (stop + step - 1) step).

(** [files[i : i + batch_size]] *)
Definition slice (files : list string) (i : nat) : list string :=
  take batch_size (drop i files).

(** The arguments of the progress call that ends the batch at [i]. *)
Definition progress_of (total : nat) (i : nat) : nat * nat :=
  (Nat.min (i + batch_size) total, total).

(** One turn of [for i in range(0, total_files, batch_size)]: tag the
    files of the slice [files[i : i + batch_size]] under the names
    [os.walk] gave them, signal the save worker, report progress.  The
    calls of [progress_callback] are collected in order. *)
Definition batch_step (files : list string) (tags : list string)
  (progress_callback : bool) (acc : manager * list (nat * nat)) (i : nat)
  : manager * list (nat * nat) :=
  let total_files := length files in
  let batch := slice files i in
  let m := with_db (foldl (tag_file tags) (tags_db acc.1) batch) acc.1 in
  let m := queue_save m in
  (m, if progress_callback
      then acc.2 ++ [progress_of total_files i]
      else acc.2).

(** [add_tags_to_directory(directory, tags, progress_callback)], with
    the tree found under [directory]; [progress_callback] tells whether a
    callback was passed.  Returns [total_files], the manager, and the
    arguments of the callback's calls. *)
Definition add_tags_to_directory (directory : string) (tree : dirtree)
  (tags : list string) (progress_callback : bool) (m : manager)
  : nat * manager * list (nat * nat) :=
  let files := walk_files directory tree in
  let total_files := length files in
  let r := foldl (batch_step files tags progress_callback) (m, [])
             (py_range_step total_files batch_size) in
  (total_files, r.1, r.2).

(** The directory branch of [MainWindow.add_tags]: the check box
    [include_subdirs] chooses between [add_tags_to_directory] with the
    progress dialog's callback and a loop of [add_tags] over the plain
    files that [os.listdir(directory)] names. *)
Definition MainWindow_add_tags_directory (include_subdirs : bool)
  (directory : string) (tree : dirtree) (tags : list string) (m : manager)
  : manager * list (nat * nat) :=
  if include_subdirs then
    let r := add_tags_to_directory directory tree tags true m in (r.1.2, r.2)
  else
    match tree with
    | Dir filenames _ =>
        (foldl (λ m filename, add_tags (PyPath.join directory filename) tags m)
           m filenames, [])
    end.

(** ** The store invariant *)

(** A stored tag: not empty, unchanged by [lower] and by [strip]. *)
Definition tag_ok (t : string) : Prop :=
  t ≠ "" ∧ PyStr.lower t = t ∧ PyStr.strip t = t.

(** Every tag of every list is a stored tag and occurs once. *)
Definition tags_inv (db : gmap string (list string)) : Prop :=
  ∀ p l, db !! p = Some l → NoDup l ∧ Forall tag_ok l.

(** The invariant of the data model: moreover no key has an empty list. *)
Definition store_inv (db : gmap string (list string)) : Prop :=
  ∀ p l, db !! p = Some l → l ≠ [] ∧ NoDup l ∧ Forall tag_ok l.

(** The part of it about keys alone: no key has an empty list. *)
Definition nonempty_inv (db : gmap string (list string)) : Prop :=
  ∀ p l, db !! p = Some l → l ≠ [].

(** A tag list from which [add_tags] appends something to a new entry. *)
Definition some_tag (tags : list string) : Prop :=
  Exists (λ tag, PyStr.normalize tag ≠ "") tags.

#[global] Instance some_tag_dec tags : Decision (some_tag tags).
Proof. unfold some_tag. apply _. Defined.

(** Two spellings name one file when they resolve to the same absolute
    path from the working directory [cwd]: an absolute spelling stands
    for itself, a relative one is joined to [cwd]. *)
Definition spec_same_file (cwd p q : string) : Prop :=
  PyPath.join cwd p = PyPath.join cwd q.

(** What the loop of [add_tags] does to the list of one entry. *)
Definition append_tag (l : list string) (tag : string) : list string :=
  let tag := PyStr.normalize tag in
  if decide (tag ≠ "" ∧ tag ∉ l) then l ++ [tag] else l.

(** Whether a component contains a slash. *)
Fixpoint has_sep (s : string) : bool :=
  match s with
  | EmptyString => false
  | String c s' => bool_decide (c = PyPath.sep) || has_sep s'
  end.

(** ** The snapshot document: [json.dump] *)

Module Json.

Definition dquote : ascii := ascii_of_nat 34.
Definition backslash : ascii := ascii_of_nat 92.
Definition newline : ascii := ascii_of_nat 10.

Definition hex_digit (n : nat) : ascii :=
  if (n <? 10)%nat then ascii_of_nat (48 + n) else ascii_of_nat (87 + n).

(** One character inside a JSON string, as the encoder with
    [ensure_ascii] writes it: the quote, the backslash and five control
    characters by their short escapes, every other character outside
    [' '..'~'] as a 4-digit lowercase [\u] escape. *)
Definition escape_char (c : ascii) : string :=
  let n := nat_of_ascii c in
  if decide (c = dquote) then String backslash (String dquote "")
  else if decide (c = backslash) then String backslash (String backslash "")
  else if decide (n = 10) then String backslash "n"
  else if decide (n = 13) then String backslash "r"
  else if decide (n = 9) then String backslash "t"
  else if decide (n = 8) then String backslash "b"
  else if decide (n = 12) then String backslash "f"
  else if decide (32 ≤ n ≤ 126) then String c ""
  else String backslash
         (String "u" (String "0" (String "0"
            (String (hex_digit (n / 16)) (String (hex_digit (n mod 16)) ""))))).

Fixpoint escape (s : string) : string :=
  match s with
  | EmptyString => ""
  | String c s' => escape_char c +:+ escape s'
  end.

Definition encode_string (s : string) : string :=
  String dquote (escape s +:+ String dquote "").

Fixpoint spaces (n : nat) : string :=
  match n with 0 => "" | S n' => String " " (spaces n') end.

(** A line break and the indentation of [level], with [indent=4]. *)
Definition newline_indent (level : nat) : string :=
  String newline (spaces (4 * level)).

(** [sep.join(items)] *)
Fixpoint join_with (sep : string) (items : list string) : string :=
  match items with
  | [] => ""
  | [x] => x
  | x :: xs => x +:+ sep +:+ join_with sep xs
  end.

Definition encode_list (l : list string) : string :=
  match l with
  | [] => "[]"
  | _ => "[" +:+ newline_indent 2
         +:+ join_with ("," +:+ newline_indent 2) (encode_string <$> l)
         +:+ newline_indent 1 +:+ "]"
  end.

Definition encode_item (kv : string * list string) : string :=
  encode_string kv.1 +:+ ": " +:+ encode_list kv.2.

(** The text [json.dump(tags_db, f, indent=4)] writes. *)
Definition dumps (db : gmap string (list string)) : string :=
  match map_to_list db with
  | [] => "{}"
  | kvs => "{" +:+ newline_indent 1
           +:+ join_with ("," +:+ newline_indent 1) (encode_item <$> kvs)
           +:+ newline_indent 0 +:+ "}"
  end.

End Json.

(** ** The snapshot over Python strings in full *)

(** The manager above keeps strings of characters below 256.  A Python
    [str] is a sequence of code points below [0x110000], lone surrogates
    included; the codec of the snapshot is modelled here over such
    strings, the text of the document itself being plain ASCII. *)
Module PyJson.
Import Json.

Definition is_high (c : N) : bool := ((0xD800 <=? c) && (c <=? 0xDBFF))%N.
Definition is_low (c : N) : bool := ((0xDC00 <=? c) && (c <=? 0xDFFF))%N.

(** [Py_UNICODE_HIGH_SURROGATE], [Py_UNICODE_LOW_SURROGATE] and
    [Py_UNICODE_JOIN_SURROGATES]. *)
Definition high_surrogate (c : N) : N := (0xD800 - 0x40 + N.shiftr c 10)%N.
Definition low_surrogate (c : N) : N := (0xDC00 + N.land c 0x3FF)%N.
Definition join_surrogates (hi lo : N) : N :=
  (N.lor (N.shiftl (N.land hi 0x3FF) 10) (N.land lo 0x3FF) + 0x10000)%N.

Definition hex_digit_of (n : N) : ascii := hex_digit (N.to_nat n).

(** [\uXXXX], in lowercase hexadecimal. *)
Definition u_escape (n : N) : string :=
  String backslash (String "u"
    (String (hex_digit_of (N.land (N.shiftr n 12) 0xF))
    (String (hex_digit_of (N.land (N.shiftr n 8) 0xF))
    (String (hex_digit_of (N.land (N.shiftr n 4) 0xF))
    (String (hex_digit_of (N.land n 0xF)) ""))))).

(** One code point inside a JSON string, as the encoder with
    [ensure_ascii] writes it: short escapes, the printable ASCII
    characters as they are, the rest of the basic plane as one [\u]
    escape, a code point above it as the two escapes of its surrogate
    pair. *)
Definition escape_char (c : N) : string :=
  if decide (c = 34%N) then String backslash (String dquote "")
  else if decide (c = 92%N) then String backslash (String backslash "")
  else if decide (c = 10%N) then String backslash "n"
  else if decide (c = 13%N) then String backslash "r"
  else if decide (c = 9%N) then String backslash "t"
  else if decide (c = 8%N) then String backslash "b"
  else if decide (c = 12%N) then String backslash "f"
  else if decide (32 ≤ c ≤ 126)%N then String (ascii_of_N c) ""
  else if decide (0x10000 ≤ c)%N
       then u_escape (high_surrogate c) +:+ u_escape (low_surrogate c)
  else u_escape c.

Fixpoint escape (s : list N) : string :=
  match s with
  | [] => ""
  | c :: s' => escape_char c +:+ escape s'
  end.

Definition encode_string (s : list N) : string :=
  String dquote (escape s +:+ String dquote "").

Definition encode_list (l : list (list N)) : string :=
  match l with
  | [] => "[]"
  | _ => "[" +:+ newline_indent 2
         +:+ join_with ("," +:+ newline_indent 2) (encode_string <$> l)
         +:+ newline_indent 1 +:+ "]"
  end.

Definition encode_item (kv : list N * list (list N)) : string :=
  encode_string kv.1 +:+ ": " +:+ encode_list kv.2.

(** The text [json.dump(tags_db, f, indent=4)] writes. *)
Definition dumps (db : gmap (list N) (list (list N))) : string :=
  match map_to_list db with
  | [] => "{}"
  | kvs => "{" +:+ newline_indent 1
           +:+ join_with ("," +:+ newline_indent 1) (encode_item <$> kvs)
           +:+ newline_indent 0 +:+ "}"
  end.

(** The decoder, for documents of the store's shape: an object whose
    values are arrays of strings.  [None] stands for every other text,
    whatever [json.loads] does with it. *)

Definition is_ws (c : ascii) : bool :=
  let n := nat_of_ascii c in
  ((n =? 32) || (n =? 9) || (n =? 10) || (n =? 13))%nat.

Fixpoint skip_ws (s : string) : string :=
  match s with
  | EmptyString => ""
  | String c s' => if is_ws c then skip_ws s' else s
  end.

Definition hex_value (c : ascii) : option N :=
  let n := N_of_ascii c in
  if ((48 <=? n) && (n <=? 57))%N then Some (n - 48)%N
  else if ((97 <=? n) && (n <=? 102))%N then Some (n - 87)%N
  else if ((65 <=? n) && (n <=? 70))%N then Some (n - 55)%N
  else None.

(** The four hexadecimal digits of a [\u] escape. *)
Definition decode_u (h1 h2 h3 h4 : ascii) : option N :=
  match hex_value h1, hex_value h2, hex_value h3, hex_value h4 with
  | Some a, Some b, Some c, Some d => Some (((a * 16 + b) * 16 + c) * 16 + d)%N
  | _, _, _, _ => None
  end.

Definition unescape (e : ascii) : option N :=
  if decide (e = dquote) then Some 34%N
  else if decide (e = backslash) then Some 92%N
  else if decide (e = "/"%char) then Some 47%N
  else if decide (e = "b"%char) then Some 8%N
  else if decide (e = "f"%char) then Some 12%N
  else if decide (e = "n"%char) then Some 10%N
  else if decide (e = "r"%char) then Some 13%N
  else if decide (e = "t"%char) then Some 9%N
  else None.

Definition prepend (c : N) (r : option (list N * string))
  : option (list N * string) :=
  match r with
  | Some (x, rest) => Some (c :: x, rest)
  | None => None
  end.

(** The string scanner in strict mode, from just after the opening
    quote: the decoded string and what follows the closing quote.  A
    [\u] escape of a high surrogate directly followed by a [\u] escape
    of a low surrogate is read as the one code point of the pair. *)
Fixpoint scan_string (s : string) : option (list N * string) :=
  match s with
  | EmptyString => None
  | String c s' =>
      if decide (c = dquote) then Some ([], s')
      else if decide (c = backslash) then
        match s' with
        | String e s'' =>
            if decide (e = "u"%char) then
              match s'' with
              | String h1 (String h2 (String h3 (String h4 r))) =>
                  match decode_u h1 h2 h3 h4 with
                  | Some uni =>
                      let alone := prepend uni (scan_string r) in
                      if is_high uni then
                        match r with
                        | String b (String u (String k1 (String k2
                            (String k3 (String k4 r2))))) =>
                            if decide (b = backslash ∧ u = "u"%char) then
                              match decode_u k1 k2 k3 k4 with
                              | Some uni2 =>
                                  if is_low uni2
                                  then prepend (join_surrogates uni uni2)
                                         (scan_string r2)
                                  else alone
                              | None => alone
                              end
                            else alone
                        | _ => alone
                        end
                      else alone
                  | None => None
                  end
              | _ => None
              end
            else
              match unescape e with
              | Some ch => prepend ch (scan_string s'')
              | None => None
              end
        | EmptyString => None
        end
      else if decide (nat_of_ascii c < 32) then None
      else prepend (N_of_ascii c) (scan_string s')
  end.

(** The items of an array, from the opening quote of an item. *)
Fixpoint scan_items (fuel : nat) (s : string)
  : option (list (list N) * string) :=
  match fuel with
  | 0 => None
  | S fuel' =>
      match s with
      | String c s1 =>
          if decide (c = dquote) then
            match scan_string s1 with
            | Some (x, r) =>
                match skip_ws r with
                | String "]" r' => Some ([x], r')
                | String "," r' =>
                    match scan_items fuel' (skip_ws r') with
                    | Some (xs, r'') => Some (x :: xs, r'')
                    | None => None
                    end
                | _ => None
                end
            | None => None
            end
          else None
      | EmptyString => None
      end
  end.

(** An array, from just after its bracket. *)
Definition scan_array (fuel : nat) (s : string)
  : option (list (list N) * string) :=
  match skip_ws s with
  | String "]" r => Some ([], r)
  | s' => scan_items fuel s'
  end.

(** The members of an object, from the opening quote of a key. *)
Fixpoint scan_pairs (fuel : nat) (s : string)
  : option (list (list N * list (list N)) * string) :=
  match fuel with
  | 0 => None
  | S fuel' =>
      match s with
      | String c s1 =>
          if decide (c = dquote) then
            match scan_string s1 with
            | Some (key, r) =>
                match skip_ws r with
                | String ":" r1 =>
                    match skip_ws r1 with
                    | String "[" r2 =>
                        match scan_array fuel' r2 with
                        | Some (value, r3) =>
                            match skip_ws r3 with
                            | String "}" r4 => Some ([(key, value)], r4)
                            | String "," r4 =>
                                match scan_pairs fuel' (skip_ws r4) with
                                | Some (kvs, r5) => Some ((key, value) :: kvs, r5)
                                | None => None
                                end
                            | _ => None
                            end
                        | None => None
                        end
                    | _ => None
                    end
                | _ => None
                end
            | None => None
            end
          else None
      | EmptyString => None
      end
  end.

Definition scan_object (fuel : nat) (s : string)
  : option (list (list N * list (list N)) * string) :=
  match skip_ws s with
  | String "}" r => Some ([], r)
  | s' => scan_pairs fuel s'
  end.

(** [dict(pairs)]: a later pair replaces an earlier one of the same key. *)
Definition dict_of_pairs (pairs : list (list N * list (list N)))
  : gmap (list N) (list (list N)) :=
  foldl (λ d kv, <[kv.1 := kv.2]> d) ∅ pairs.

Definition loads (s : string) : option (gmap (list N) (list (list N))) :=
  match skip_ws s with
  | String "{" r =>
      match scan_object (String.length s) r with
      | Some (pairs, rest) =>
          match skip_ws rest with
          | EmptyString => Some (dict_of_pairs pairs)
          | _ => None
          end
      | None => None
      end
  | _ => None
  end.

(** The text ahead does not open with the escape of a low surrogate. *)
Definition no_low_ahead (t : string) : Prop :=
  ∀ k1 k2 k3 k4 r2 lo,
    t = String backslash (String "u"
          (String k1 (String k2 (String k3 (String k4 r2))))) →
    decode_u k1 k2 k3 k4 = Some lo → is_low lo = false.

(** A string of code points, none beyond the last one of Unicode. *)
Definition is_str (s : list N) : Prop := Forall (λ c, (c < 0x110000)%N) s.

(** No high surrogate stands directly before a low one. *)
Fixpoint pair_free (s : list N) : Prop :=
  match s with
  | a :: s' =>
      match s' with
      | b :: _ => ¬ (is_high a ∧ is_low b)
      | [] => True
      end ∧ pair_free s'
  | [] => True
  end.

Definition plain_str (s : list N) : Prop := is_str s ∧ pair_free s.

(** The code points of a string of the manager's model. *)
Fixpoint codes (s : string) : list N :=
  match s with
  | EmptyString => []
  | String c s' => N_of_ascii c :: codes s'
  end.

(** A dictionary of Python strings, and one whose keys and tags have no
    surrogate pair spelled as two code points. *)
Definition is_store (db : gmap (list N) (list (list N))) : Prop :=
  map_Forall (λ k v, is_str k ∧ Forall is_str v) db.

Definition pair_free_store (db : gmap (list N) (list (list N))) : Prop :=
  map_Forall (λ k v, pair_free k ∧ Forall pair_free v) db.

End PyJson.

(** ** The files *)

(** The exception classes the handlers tell apart.  [OSError] stands for
    the subclasses of [OSError] other than the two named here,
    [OtherError] for every other exception. *)
Inductive exn : Type :=
  | JSONDecodeError
  | FileNotFoundError
  | PermissionError
  | OSError
  | UnicodeDecodeError
  | OtherError.

#[global] Instance exn_eq_dec : EqDecision exn.
Proof. solve_decision. Defined.

(** The files the manager touches: [file_tags.json], its [.backup], and
    the temporary files present in its directory (newest first), each by
    its content when it exists. *)
Record disk := Disk {
  db_file : option string;
  backup_file : option string;
  temp_files : list string;
}.

(** What [open] and the rename to [.backup] meet during one load. *)
Record load_env := LoadEnv {
  open_raises : option exn;   (* raised by [open] or [f.read()] *)
  backup_rename_fails : bool; (* [os.rename] raises an [OSError] *)
}.

(** [except (json.JSONDecodeError, FileNotFoundError, PermissionError)] *)
Definition load_catches (e : exn) : bool :=
  match e with
  | JSONDecodeError | FileNotFoundError | PermissionError => true
  | _ => false
  end.

(** [os.rename(self.db_file, backup_file)] *)
Definition move_to_backup (d : disk) : disk :=
  {| db_file := None; backup_file := db_file d; temp_files := temp_files d |}.

(** [_load_db], for any decoder [loads] and value type [V] with its
    empty dictionary: the value returned or the exception that leaves
    the method, and the files afterwards. *)
Definition _load_db {V : Type} (loads : string → V + exn) (empty : V)
  (env : load_env) (d : disk) : (V + exn) * disk :=
  match db_file d with
  | Some content =>
      let body :=
        match open_raises env with
        | Some e => inr e
        | None =>
            if decide (PyStr.strip content = "") then inl empty
            else loads content
        end in
      match body with
      | inl v => (inl v, d)
      | inr e =>
          if load_catches e then
            (inl empty,
             if decide (content ≠ "") then
               if backup_rename_fails env then d else move_to_backup d
             else d)
          else (inr e, d)
      end
  | None => (inl empty, d)
  end.

(** What one attempt of [_save_db_with_retry] meets. *)
Inductive temp_outcome : Type :=
  | TempWritten                    (* dumped, flushed, synced, closed *)
  | TempCreateFails                (* no file was created *)
  | TempWriteFails (written : nat) (* fails with [written] characters out *).

Inductive remove_outcome : Type :=
  | Removed
  | RemoveDenied   (* [os.remove] raises [PermissionError] *)
  | RemoveFails    (* [os.remove] raises another exception *).

Record attempt_env := AttemptEnv {
  temp_out : temp_outcome;
  remove_out : remove_outcome;
  rename_ok : bool;
}.

(** How one turn of the retry loop ends. *)
Inductive attempt_end : Type :=
  | Replaced   (* [os.rename] done, [return] *)
  | Denied     (* the inner [except PermissionError]: sleep, [continue] *)
  | Raised     (* the outer [except Exception] *).

#[global] Instance attempt_end_eq_dec : EqDecision attempt_end.
Proof. solve_decision. Defined.

Definition string_take (n : nat) (s : string) : string :=
  String.substring 0 n s.

(** The body of the [try] of one attempt writing [doc]. *)
Definition attempt (win32 : bool) (doc : string) (env : attempt_env)
  (d : disk) : attempt_end * disk :=
  match temp_out env with
  | TempCreateFails => (Raised, d)
  | TempWriteFails n =>
      (Raised, {| db_file := db_file d; backup_file := backup_file d;
                  temp_files := string_take n doc :: temp_files d |})
  | TempWritten =>
      let d1 := {| db_file := db_file d; backup_file := backup_file d;
                   temp_files := doc :: temp_files d |} in
      let rename (d' : disk) : attempt_end * disk :=
        if rename_ok env then
          (Replaced, {| db_file := Some doc; backup_file := backup_file d';
                        temp_files := temp_files d |})
        else (Raised, d') in
      if bool_decide (is_Some (db_file d)) && win32 then
        match remove_out env with
        | Removed =>
            rename {| db_file := None; backup_file := backup_file d1;
                      temp_files := temp_files d1 |}
        | RemoveDenied => (Denied, d1)
        | RemoveFails => (Raised, d1)
        end
      else rename d1
  end.

(** Whether the call returned or an exception left it. *)
Inductive outcome : Type := Returns | Raises.

Record save_result := SaveResult {
  ended : outcome;
  files : disk;
  sleeps : list Z;          (* the arguments of [time.sleep], in order *)
  log : list attempt_end;   (* how each attempt made ended, in order *)
}.

(** [for attempt in range(max_retries)], from turn [attempt_no] with
    [remaining] turns to go. *)
Fixpoint retry_loop (win32 : bool) (doc : string) (envs : nat → attempt_env)
  (max_retries remaining attempt_no : nat) (delay : Z) (d : disk)
  (slept : list Z) (seen : list attempt_end) : save_result :=
  match remaining with
  | 0 => {| ended := Returns; files := d; sleeps := slept; log := seen |}
  | S remaining' =>
      match attempt win32 doc (envs attempt_no) d with
      | (Replaced, d') =>
          {| ended := Returns; files := d'; sleeps := slept;
             log := seen ++ [Replaced] |}
      | (Denied, d') =>
          retry_loop win32 doc envs max_retries remaining' (S attempt_no)
            delay d' (slept ++ [delay]) (seen ++ [Denied])
      | (Raised, d') =>
          if decide (attempt_no = max_retries - 1) then
            {| ended := Raises; files := d'; sleeps := slept;
               log := seen ++ [Raised] |}
          else
            retry_loop win32 doc envs max_retries remaining' (S attempt_no)
              (delay * 2) d' (slept ++ [delay]) (seen ++ [Raised])
      end
  end.

(** [_save_db_with_retry(max_retries, delay)] on the dictionary [db]. *)
Definition _save_db_with_retry_from (max_retries : nat) (delay : Z)
  (win32 : bool) (envs : nat → attempt_env)
  (db : gmap string (list string)) (d : disk) : save_result :=
  retry_loop win32 (Json.dumps db) envs max_retries max_retries 0 delay d [] [].

(** The call as the worker makes it: [max_retries=3, delay=1]. *)
Definition _save_db_with_retry :=
  _save_db_with_retry_from 3 1%Z.

(** The two methods on a dictionary of Python strings in full. *)
Module Unicode.

Definition store : Type := gmap (list N) (list (list N)).

(** [_save_db_with_retry()] on the dictionary [db]. *)
Definition _save_db_with_retry (win32 : bool) (envs : nat → attempt_env)
  (db : store) (d : disk) : save_result :=
  retry_loop win32 (PyJson.dumps db) envs 3 3 0 1%Z d [] [].

(** [json.loads] as [_load_db] takes it.  On a document of the
    snapshot's shape it returns the dictionary; on any other text it
    does what [other] says, which is left open: it raises, or it
    returns a value of another shape, here of type [F]. *)
Definition json_loads {F : Type} (other : string → (store + F) + exn)
  (s : string) : (store + F) + exn :=
  match PyJson.loads s with
  | Some db => inl (inl db)
  | None => other s
  end.

(** A dictionary of the manager's model as one of Python strings. *)
Definition of_store (db : gmap string (list string)) : store :=
  kmap (M2 := gmap (list N)) PyJson.codes
    ((λ l : list string, PyJson.codes <$> l) <$> db).

(** A file tagged with an emoji and an accented word. *)
Definition example_store : store :=
  {[ [97; 46; 116; 120; 116]%N := [[0x1F600]%N; [99; 97; 102; 233]%N] ]}.

(** A tag of two code points, a high surrogate and a low one, and the
    tag of the one code point they spell as a pair. *)
Definition two_surrogates : store := {[ [97]%N := [[0xD83D; 0xDE00]%N] ]}.
Definition one_emoji : store := {[ [97]%N := [[0x1F600]%N] ]}.

End Unicode.

(** An attempt that meets no failure. *)
Definition clean : attempt_env :=
  {| temp_out := TempWritten; remove_out := Removed; rename_ok := true |}.

(** Every attempt raises at the rename. *)
Definition rename_always_fails (_ : nat) : attempt_env :=
  {| temp_out := TempWritten; remove_out := Removed; rename_ok := false |}.

(** The old file can never be removed. *)
Definition remove_always_denied (_ : nat) : attempt_env :=
  {| temp_out := TempWritten; remove_out := RemoveDenied; rename_ok := true |}.

(** The cases the handler of [_load_db] is written for: no file, a blank
    file, a file the decoder rejects with [JSONDecodeError]. *)
Definition unreadable {V : Type} (loads : string → V + exn)
  (env : load_env) (d : disk) : Prop :=
  match db_file d with
  | None => True
  | Some content =>
      open_raises env = None
      ∧ (PyStr.strip content = "" ∨ loads content = inr JSONDecodeError)
  end.

(** ** The save worker and the foreground, interleaved *)

(** Where [_save_worker] stands: blocked in [self._save_queue.get], or
    past it with a token taken, due to enter the locked section once
    the clock reaches [wake] (the end of its rate-limit sleep, or the
    time of the [get] when no sleep is due). *)
Inductive worker_state : Type :=
  | Waiting
  | Dequeued (wake : Z).

(** The manager, the worker, the files, the dictionaries that a rename
    has put on disk since the start (oldest first), and the clock, in
    milliseconds. *)
Record system := System {
  mgr : manager;
  worker : worker_state;
  on_disk : disk;
  writes : list (gmap string (list string));
  now : Z;
}.

Definition second : Z := 1000.

(** The steps of the two threads, each at its time.
    - [Change t f]: the foreground updates the dictionary (the loop of
      [add_tags], the [remove] and [del] of [remove_tag], a batch of
      [add_tags_to_directory]); no lock is taken.
    - [Signal t]: the foreground runs [queue_save].
    - [Dequeue t]: the worker's [get] returns and it reads the clock.
    - [Save t envs]: the worker runs its locked section, [envs] being
      what the attempts of [_save_db_with_retry] meet. *)
Inductive event : Type :=
  | Change (t : Z) (f : gmap string (list string) → gmap string (list string))
  | Signal (t : Z)
  | Dequeue (t : Z)
  | Save (t : Z) (envs : nat → attempt_env).

Definition event_time (e : event) : Z :=
  match e with
  | Change t _ | Signal t | Dequeue t | Save t _ => t
  end.

(** The locked section of the worker at time [t]: with pending changes,
    write; when the write returns, lower the flag and note the time; when
    it raises, the handler of the loop prints and goes on. *)
Definition locked_section (win32 : bool) (t : Z) (envs : nat → attempt_env)
  (s : system) : system :=
  if pending_changes (mgr s) then
    let r := _save_db_with_retry win32 envs (tags_db (mgr s)) (on_disk s) in
    match ended r with
    | Returns =>
        {| mgr := {| tags_db := tags_db (mgr s);
                     save_queue := save_queue (mgr s);
                     last_save := t; pending_changes := false |};
           worker := Waiting; on_disk := files r;
           writes := writes s ++
                     (if decide (last (log r) = Some Replaced)
                      then [tags_db (mgr s)] else []);
           now := t |}
    | Raises =>
        {| mgr := mgr s; worker := Waiting; on_disk := files r;
           writes := writes s; now := t |}
    end
  else
    {| mgr := mgr s; worker := Waiting; on_disk := on_disk s;
       writes := writes s; now := t |}.

(** One step; [None] when the event cannot happen in [s]: the clock does
    not run backwards, [get] needs the worker at the head of its loop and
    a token, the locked section needs the worker past its sleep. *)
Definition step (win32 : bool) (s : system) (e : event) : option system :=
  if decide (now s ≤ event_time e)%Z then
    match e with
    | Change t f =>
        Some {| mgr := with_db (f (tags_db (mgr s))) (mgr s);
                worker := worker s; on_disk := on_disk s;
                writes := writes s; now := t |}
    | Signal t =>
        Some {| mgr := queue_save (mgr s); worker := worker s;
                on_disk := on_disk s; writes := writes s; now := t |}
    | Dequeue t =>
        match worker s, save_queue (mgr s) with
        | Waiting, S q =>
            let time_since_last_save := (t - last_save (mgr s))%Z in
            let wake :=
              if decide (time_since_last_save < second)%Z
              then (t + (second - time_since_last_save))%Z else t in
            Some {| mgr := {| tags_db := tags_db (mgr s); save_queue := q;
                              last_save := last_save (mgr s);
                              pending_changes := pending_changes (mgr s) |};
                    worker := Dequeued wake; on_disk := on_disk s;
                    writes := writes s; now := t |}
        | _, _ => None
        end
    | Save t envs =>
        match worker s with
        | Dequeued wake =>
            if decide (wake ≤ t)%Z then Some (locked_section win32 t envs s)
            else None
        | Waiting => None
        end
    end
  else None.

Fixpoint run (win32 : bool) (s : system) (evs : list event) : option system :=
  match evs with
  | [] => Some s
  | e :: evs' =>
      match step win32 s e with
      | Some s' => run win32 s' evs'
      | None => None
      end
  end.


Fixpoint signals (evs : list event) : nat :=
  match evs with
  | [] => 0
  | Signal _ :: evs' => S (signals evs')
  | _ :: evs' => signals evs'
  end.




(** [add_tags] as a foreground thread runs it at time [t]. *)
Definition add_tags_events (t : Z) (filepath : string) (tags : list string)
  : list event :=
  [Change t (λ db, tag_file tags db (PyPath.str_Path filepath)); Signal t].



(** The system as a write at time [L] of the dictionary [db] leaves it. *)
Definition settled_at (L : Z) (db : gmap string (list string)) : system :=
  {| mgr := {| tags_db := db; save_queue := 0; last_save := L;
               pending_changes := false |};
     worker := Waiting;
     on_disk := Disk (Some (Json.dumps db)) None [];
     writes := []; now := L |}.

(** Three [add_tags] within the second after a write at 5 s, the worker
    taking its first token between them. *)
Definition burst_events : list event :=
  add_tags_events 5100 "a.txt" ["x"] ++ [Dequeue 5100]
  ++ add_tags_events 5400 "b.txt" ["y"]
  ++ add_tags_events 5900 "a.txt" ["Z"]
  ++ [Save 6000 (λ _, clean); Dequeue 6000; Save 7000 (λ _, clean);
      Dequeue 7000; Save 7000 (λ _, clean)].



(** ** Examples and measures used below *)

(** The spec's example store. *)
Definition example_store : gmap string (list string) :=
  <["a" := ["x"; "y"]]> (<["b" := ["x"]]> (<["c" := ["y"; "z"]]> ∅)).

(** 250 files in one flat directory, named [f0] to [f249]. *)
Definition flat_250 : dirtree :=
  Dir ((λ k, "f" +:+ pretty k) <$> seq 0 250) [].

(** A bound on the turns the decoder takes on the members [kvs]. *)
Definition pairs_weight (kvs : list (list N * list (list N))) : nat :=
  sum_list ((λ kv, S (length kv.2)) <$> kvs).

(** ** The window's handlers *)

(** [s.split(",")], and so for any one-character separator. *)
Fixpoint split_on (c : ascii) (s : string) : list string :=
  match s with
  | EmptyString => [""]
  | String a s' =>
      if decide (a = c) then "" :: split_on c s'
      else match split_on c s' with
           | x :: xs => String a x :: xs
           | [] => [String a ""]
           end
  end.

(** [[tag.strip() for tag in text.split(",") if tag.strip()]], the tags
    [MainWindow.add_tags] reads from its input line. *)
Definition input_tags (text : string) : list string :=
  filter (λ tag, tag ≠ "") (PyStr.strip <$> split_on "," text).

(** What [self.current_file] names on disk, as [os.path.isfile],
    [os.walk] and [os.listdir] see it. *)
Inductive selected : Type :=
  | IsFile
  | IsDirectory (tree : dirtree)
  | Missing.

(** [MainWindow.add_tags], for its effect on the manager: nothing without
    a selection or without tags; [add_tags] on a file; the directory
    branch otherwise.  On a path that does not exist [os.walk] finds no
    file and [os.listdir] raises into the handler's [except], so that
    nothing is changed either way. *)
Definition MainWindow_add_tags (current_file : string) (kind : selected)
  (include_subdirs : bool) (text : string) (m : manager) : manager :=
  if decide (current_file = "") then m
  else
    let tags := input_tags text in
    match tags with
    | [] => m
    | _ =>
        match kind with
        | IsFile => add_tags current_file tags m
        | IsDirectory tree =>
            (MainWindow_add_tags_directory include_subdirs current_file
               tree tags m).1
        | Missing => m
        end
    end.

(** [MainWindow.search_files]: [None] when it returns before searching,
    else the list it shows. *)
Definition MainWindow_search_files (text : string) (m : manager)
  : option (list string) :=
  let search_terms := PyStr.strip <$> split_on "," text in
  match search_terms with
  | [] => None
  | first :: _ =>
      if decide (first = "") then None
      else Some (search_by_tags search_terms m)
  end.



(** One for a worker that holds a token, zero for one that waits. *)
Definition holding (s : system) : nat :=
  match worker s with Dequeued _ => 1 | Waiting => 0 end.

(** The worker is never due before the rate limit allows. *)
Definition due_after_limit (s : system) : Prop :=
  ∀ wake, worker s = Dequeued wake → (last_save (mgr s) + second ≤ wake)%Z.

(** A first [add_tags] after a write at 5 s, and the worker's [get]. *)
Definition first_token_events : list event :=
  add_tags_events 5100 "a.txt" ["x"] ++ [Dequeue 5100].

(** A name as [os.walk] reports it: one kept component, no slash. *)
Definition plain_name (n : string) : Prop :=
  PyPath.kept n ∧ has_sep n = false.

#[global] Instance plain_name_dec n : Decision (plain_name n).
Proof. unfold plain_name. apply _. Defined.

(** All names of a tree are such names. *)
Fixpoint plain_tree (t : dirtree) : Prop :=
  match t with
  | Dir filenames subdirs =>
      Forall plain_name filenames
      ∧ (fix plain_subdirs (ds : list (string * dirtree)) : Prop :=
           match ds with
           | [] => True
           | (name, sub) :: ds' =>
               plain_name name ∧ plain_tree sub ∧ plain_subdirs ds'
           end) subdirs
  end.

(** A directory spelled in the normal form of [str(Path(d))], other than
    ["."]. *)
Definition normal_dir (d : string) : Prop :=
  PyPath.str_Path d = d ∧ d ≠ ".".

(** [MainWindow.update_tags_list]: the tags the list widget shows. *)
Definition update_tags_list (current_file : string) (is_file : bool)
  (m : manager) : list string :=
  if bool_decide (current_file ≠ "") && is_file then get_tags current_file m
  else [].

(** [MainWindow.remove_tag] on the double-clicked [item], [yes] being
    the answer to the question box. *)
Definition MainWindow_remove_tag (current_file : string) (is_file : bool)
  (item : string) (yes : bool) (m : manager) : manager :=
  if bool_decide (current_file ≠ "") && is_file then
    if yes then remove_tag current_file item m else m
  else m.

(** * Properties *)

(** ** Facts about [str.lower] and [str.strip] *)

Section PyStrFacts.
Import PyStr.

Lemma lower_char_idemp c : lower_char (lower_char c) = lower_char c.
Proof. destruct c as [[] [] [] [] [] [] [] []]; reflexivity. Qed.

Lemma isspace_lower_char c : isspace (lower_char c) = isspace c.
Proof. destruct c as [[] [] [] [] [] [] [] []]; reflexivity. Qed.

Lemma lower_idemp s : lower (lower s) = lower s.
Proof. induction s as [|c s IH]; simpl; [done|]. by rewrite lower_char_idemp, IH. Qed.

Lemma lower_empty_inv s : lower s = "" → s = "".
Proof. by destruct s. Qed.

Lemma lower_lstrip s : lower (lstrip s) = lstrip (lower s).
Proof.
  induction s as [|c s IH]; simpl; [done|].
  rewrite isspace_lower_char. by destruct (isspace c).
Qed.

Lemma lower_rstrip s : lower (rstrip s) = rstrip (lower s).
Proof.
  induction s as [|c s IH]; simpl; [done|].
  rewrite <- IH, isspace_lower_char.
  destruct (rstrip s); simpl; [by destruct (isspace c)|done].
Qed.

Lemma lower_strip s : lower (strip s) = strip (lower s).
Proof. unfold strip. by rewrite lower_rstrip, lower_lstrip. Qed.

Lemma lstrip_idemp s : lstrip (lstrip s) = lstrip s.
Proof.
  induction s as [|c s IH]; simpl; [done|].
  destruct (isspace c) eqn:E; [done|]. simpl. by rewrite E.
Qed.

Lemma rstrip_idemp s : rstrip (rstrip s) = rstrip s.
Proof.
  induction s as [|c s IH]; simpl; [done|].
  destruct (rstrip s) as [|d r] eqn:E.
  - destruct (isspace c) eqn:Ec; simpl; [done|]. by rewrite Ec.
  - change (rstrip (String c (String d r))) with
      (match rstrip (String d r) with
       | EmptyString => if isspace c then EmptyString else String c EmptyString
       | r' => String c r' end).
    by rewrite IH.
Qed.

(** Trimming the right end leaves a string that starts with a
    non-space character the way it started. *)
Lemma lstrip_rstrip_fix s : lstrip s = s → lstrip (rstrip s) = rstrip s.
Proof.
  destruct s as [|c s]; simpl; [done|].
  destruct (isspace c) eqn:Ec.
  - intros H. exfalso.
    assert (Hlen : ∀ t, String.length (lstrip t) ≤ String.length t).
    { clear. induction t as [|d t IH]; simpl; [lia|].
      destruct (isspace d); simpl; lia. }
    specialize (Hlen s). rewrite H in Hlen. simpl in Hlen. lia.
  - intros _. destruct (rstrip s); simpl; by rewrite Ec.
Qed.

Lemma strip_idemp s : strip (strip s) = strip s.
Proof.
  unfold strip. rewrite lstrip_rstrip_fix by apply lstrip_idemp.
  apply rstrip_idemp.
Qed.

Lemma lower_normalize s : lower (normalize s) = normalize s.
Proof. apply lower_idemp. Qed.

Lemma strip_normalize s : strip (normalize s) = normalize s.
Proof. unfold normalize. by rewrite <- lower_strip, strip_idemp. Qed.

Lemma normalize_idemp s : normalize (normalize s) = normalize s.
Proof. unfold normalize at 1. by rewrite strip_normalize, lower_normalize. Qed.

End PyStrFacts.

(** ** [str(Path(p))] and [os.path.join] on examples *)

Example str_Path_plain : PyPath.str_Path "docs/a.txt" = "docs/a.txt".
Proof. reflexivity. Qed.

Example str_Path_redundant : PyPath.str_Path "./docs//a.txt/" = "docs/a.txt".
Proof. reflexivity. Qed.

Example str_Path_dotdot : PyPath.str_Path "docs/../a.txt" = "docs/../a.txt".
Proof. reflexivity. Qed.

Example str_Path_roots :
  PyPath.str_Path "" = "." ∧ PyPath.str_Path "/" = "/"
  ∧ PyPath.str_Path "//srv/x" = "//srv/x" ∧ PyPath.str_Path "///srv/x" = "/srv/x".
Proof. repeat split; reflexivity. Qed.

Example join_examples :
  PyPath.join "/d" "f.txt" = "/d/f.txt" ∧ PyPath.join "/d/" "f.txt" = "/d/f.txt"
  ∧ PyPath.join "" "f.txt" = "f.txt".
Proof. repeat split; reflexivity. Qed.

(** ** The tag loop *)

Section TagLoop.
Implicit Types (db : gmap string (list string)) (l : list string).

Lemma ensure_entry_lookup db key :
  ensure_entry key db !! key = Some (default [] (db !! key)).
Proof.
  unfold ensure_entry. destruct (db !! key) eqn:E; simpl; [done|].
  apply lookup_insert_eq.
Qed.

Lemma ensure_entry_lookup_ne db key k :
  key ≠ k → ensure_entry key db !! k = db !! k.
Proof.
  intros Hne. unfold ensure_entry. destruct (db !! key); [done|].
  by apply lookup_insert_ne.
Qed.

Lemma add_tags_loop_lookup tags : ∀ db key l,
  db !! key = Some l →
  foldl (add_one_tag key) db tags !! key = Some (foldl append_tag l tags).
Proof.
  induction tags as [|tag tags IH]; intros db key l Hl; simpl; [done|].
  apply IH. unfold add_one_tag, append_tag. rewrite Hl.
  case_decide; [apply lookup_insert_eq|done].
Qed.

Lemma add_tags_loop_lookup_ne tags : ∀ db key k,
  key ≠ k → foldl (add_one_tag key) db tags !! k = db !! k.
Proof.
  induction tags as [|tag tags IH]; intros db key k Hne; simpl; [done|].
  rewrite IH by done. unfold add_one_tag.
  destruct (db !! key); [|done]. case_decide; [|done].
  by apply lookup_insert_ne.
Qed.

Lemma tag_file_lookup tags db key :
  tag_file tags db key !! key
  = Some (foldl append_tag (default [] (db !! key)) tags).
Proof. apply add_tags_loop_lookup, ensure_entry_lookup. Qed.

Lemma tag_file_lookup_ne tags db key k :
  key ≠ k → tag_file tags db key !! k = db !! k.
Proof.
  intros Hne. unfold tag_file. rewrite add_tags_loop_lookup_ne by done.
  by apply ensure_entry_lookup_ne.
Qed.

(** The loop appends, after the old tags, each new normalized tag once. *)
Lemma append_tags_spec tags : ∀ l,
  ∃ news, foldl append_tag l tags = l ++ news ∧ NoDup news
    ∧ ∀ t, t ∈ news ↔
        (t ∉ l) ∧ t ≠ "" ∧ ∃ x, x ∈ tags ∧ t = PyStr.normalize x.
Proof.
  induction tags as [|tag tags IH]; intros l; simpl.
  - exists []. rewrite app_nil_r. split; [done|]. split; [constructor|].
    intros t. split; [by intros ?%elem_of_nil|].
    intros (_ & _ & x & ?%elem_of_nil & _); done.
  - unfold append_tag at 2. case_decide as Hd.
    + destruct Hd as [Hne Hnin].
      destruct (IH (l ++ [PyStr.normalize tag])) as (news & -> & Hnd & Hin).
      exists (PyStr.normalize tag :: news). rewrite <- app_assoc. simpl.
      split; [done|]. split.
      * constructor; [|done]. intros Hc%Hin. set_solver.
      * intros t. rewrite elem_of_cons, Hin. split.
        -- intros [->|(Ht & ? & x & Hx & ->)].
           ++ split; [done|]. split; [done|]. exists tag. set_solver.
           ++ split; [set_solver|]. split; [done|]. exists x. set_solver.
        -- intros (Ht & Hte & x & [->|Hx]%elem_of_cons & ->); [by left|].
           destruct (decide (PyStr.normalize x = PyStr.normalize tag)) as [E|E];
             [by left|right].
           split; [set_solver|]. split; [done|]. by exists x.
    + destruct (IH l) as (news & -> & Hnd & Hin).
      exists news. split; [done|]. split; [done|].
      intros t. rewrite Hin. split.
      * intros (? & ? & x & ? & ->). repeat split; try done. exists x. set_solver.
      * intros (Ht & Hte & x & [->|Hx]%elem_of_cons & ->).
        -- exfalso. apply Hd. done.
        -- repeat split; try done. by exists x.
Qed.

(** A second pass over the same tags appends nothing. *)
Lemma append_tags_twice tags l :
  foldl append_tag (foldl append_tag l tags) tags = foldl append_tag l tags.
Proof.
  destruct (append_tags_spec tags l) as (n1 & E1 & _ & H1).
  destruct (append_tags_spec tags (foldl append_tag l tags)) as (n2 & E2 & _ & H2).
  rewrite E2. destruct n2 as [|t n2]; [by rewrite app_nil_r|]. exfalso.
  destruct (H2 t) as [(Hnin & Hne & x & Hx & ->) _]; [left|].
  apply Hnin. rewrite E1. apply elem_of_app.
  destruct (decide (PyStr.normalize x ∈ l)); [by left|right].
  apply H1. repeat split; try done. by exists x.
Qed.

Lemma tag_ok_normalize x : PyStr.normalize x ≠ "" → tag_ok (PyStr.normalize x).
Proof.
  intros H. split; [done|]. split.
  - apply lower_normalize.
  - apply strip_normalize.
Qed.

End TagLoop.

(** ** Adding and reading tags *)

Lemma get_tags_add_tags p T m :
  get_tags p (add_tags p T m) = foldl append_tag (get_tags p m) T.
Proof.
  unfold get_tags, add_tags. simpl. by rewrite tag_file_lookup.
Qed.

Lemma tag_file_twice tags db key :
  tag_file tags (tag_file tags db key) key = tag_file tags db key.
Proof.
  apply map_eq. intros k. destruct (decide (key = k)) as [<-|Hne].
  - rewrite !tag_file_lookup. simpl. by rewrite append_tags_twice.
  - by rewrite !tag_file_lookup_ne.
Qed.

(** C5. After [add_tags(p, T)], [get_tags(p)] is the old list of [p]
    followed by new tags, each once: exactly the non-empty
    [x.strip().lower()], [x] in [T], that the old list lacks.  So its
    members are the old tags and those normalized tags, and a second
    [add_tags(p, T)] changes neither the list nor the dictionary. *)
Theorem add_tags_get_tags_union (p : string) (T : list string) (m : manager) :
  (∃ news, get_tags p (add_tags p T m) = get_tags p m ++ news ∧ NoDup news
     ∧ ∀ t, t ∈ news ↔
         (t ∉ get_tags p m) ∧ t ≠ ""
         ∧ ∃ x, x ∈ T ∧ t = PyStr.lower (PyStr.strip x))
  ∧ (∀ t, t ∈ get_tags p (add_tags p T m) ↔
       t ∈ get_tags p m
       ∨ (t ≠ "" ∧ ∃ x, x ∈ T ∧ t = PyStr.lower (PyStr.strip x)))
  ∧ get_tags p (add_tags p T (add_tags p T m)) = get_tags p (add_tags p T m)
  ∧ tags_db (add_tags p T (add_tags p T m)) = tags_db (add_tags p T m).
Proof.
  destruct (append_tags_spec T (get_tags p m)) as (news & E & Hnd & Hin).
  split; [|split; [|split]].
  - exists news. by rewrite get_tags_add_tags.
  - intros t. rewrite get_tags_add_tags, E, elem_of_app, Hin.
    unfold PyStr.normalize. split.
    + intros [?|(_ & ? & ?)]; [by left|by right].
    + intros [?|[? ?]]; [by left|].
      destruct (decide (t ∈ get_tags p m)); [by left|by right].
  - rewrite !get_tags_add_tags. apply append_tags_twice.
  - unfold add_tags. simpl. apply tag_file_twice.
Qed.

(** ** Searching *)

Lemma elem_of_search_by_tags Q m p :
  p ∈ search_by_tags Q m ↔
  ∃ tags, tags_db m !! p = Some tags ∧ ∀ q, q ∈ Q → PyStr.normalize q ∈ tags.
Proof.
  unfold search_by_tags. rewrite list_elem_of_fmap. split.
  - intros ([k tags] & -> & Hin). apply list_elem_of_filter in Hin as [Hall Hin].
    apply elem_of_map_to_list in Hin. exists tags. split; [done|].
    intros q Hq. unfold has_all in Hall. rewrite Forall_forall in Hall.
    apply Hall. simpl. apply list_elem_of_fmap. by exists q.
  - intros (tags & Hl & Hall). exists (p, tags). split; [done|].
    apply list_elem_of_filter. split; [|by apply elem_of_map_to_list].
    unfold has_all. rewrite Forall_forall. simpl.
    intros t (q & -> & Hq)%list_elem_of_fmap. by apply Hall.
Qed.

Lemma NoDup_search_by_tags Q m : NoDup (search_by_tags Q m).
Proof.
  unfold search_by_tags.
  assert (H : ∀ (P : string * list string → Prop) `{∀ x, Decision (P x)}
                (l : list (string * list string)),
             NoDup l.*1 → NoDup (filter P l).*1).
  { clear. intros P ? l. induction l as [|[k v] l IH]; simpl; [done|].
    intros [Hk Hnd]%NoDup_cons. rewrite filter_cons. case_decide; [|auto].
    simpl. apply NoDup_cons. split; [|auto].
    intros ([k' v'] & E & Hin%list_elem_of_filter)%list_elem_of_fmap.
    simpl in E. subst k'. apply Hk. apply list_elem_of_fmap.
    exists (k, v'). split; [done|apply Hin]. }
  apply H, NoDup_fst_map_to_list.
Qed.

(** C9. [search_by_tags(Q)] lists exactly the stored paths whose tag list
    holds every [q.strip().lower()] for [q] in [Q], compared as strings,
    and lists none twice.  A query with a tag that no list holds finds
    nothing, and the empty query finds every stored path. *)
Theorem search_by_tags_superset (Q : list string) (m : manager) :
  (∀ p, p ∈ search_by_tags Q m ↔
     ∃ tags, tags_db m !! p = Some tags
       ∧ ∀ q, q ∈ Q → PyStr.lower (PyStr.strip q) ∈ tags)
  ∧ NoDup (search_by_tags Q m)
  ∧ ((∃ q, q ∈ Q ∧ ∀ p tags, tags_db m !! p = Some tags →
                     PyStr.lower (PyStr.strip q) ∉ tags)
     → search_by_tags Q m = [])
  ∧ (∀ p, p ∈ search_by_tags [] m ↔ is_Some (tags_db m !! p)).
Proof.
  split; [apply elem_of_search_by_tags|].
  split; [apply NoDup_search_by_tags|]. split.
  - intros (q & Hq & Hnone).
    destruct (search_by_tags Q m) as [|p r] eqn:E; [done|]. exfalso.
    assert (Hp : p ∈ search_by_tags Q m) by (rewrite E; left).
    apply elem_of_search_by_tags in Hp as (tags & Hl & Hall).
    by apply (Hnone p tags Hl), Hall.
  - intros p. rewrite elem_of_search_by_tags. split.
    + intros (tags & -> & _). by eexists.
    + intros [tags ->]. exists tags. split; [done|].
      by intros q ?%elem_of_nil.
Qed.

Example search_example :
  search_by_tags ["x"] (init_manager example_store) ≡ₚ ["a"; "b"]
  ∧ search_by_tags ["X "; "y"] (init_manager example_store) = ["a"]
  ∧ search_by_tags ["q"] (init_manager example_store) = [].
Proof.
  split; [|split]; [|vm_compute; reflexivity..].
  vm_compute. apply Permutation_swap || reflexivity.
Qed.

(** ** Removing a tag *)

(** C10. When [t] is not itself an element of the list stored for [p]
    (so also when only its letter case or surrounding blanks differ from
    a stored tag: [remove_tag] compares [t] as given), [remove_tag(p, t)]
    returns the manager as it was: same dictionary, same pending flag,
    nothing queued. *)
Theorem remove_tag_absent (p t : string) (m : manager) :
  t ∉ get_tags p m → remove_tag p t m = m.
Proof.
  unfold get_tags, remove_tag. intros Hnin.
  destruct (tags_db m !! PyPath.str_Path p) as [l|]; simpl in *; [|done].
  by rewrite decide_False.
Qed.

Lemma remove_tag_absent_witness :
  let m := add_tags "a.txt" ["x"] (init_manager ∅) in
  get_tags "a.txt" m = ["x"]
  ∧ remove_tag "a.txt" "X" m = m ∧ remove_tag "a.txt" " x" m = m
  ∧ pending_changes (remove_tag "a.txt" "x" m) = true
  ∧ save_queue (remove_tag "a.txt" "x" m) = 2.
Proof.
  split; [reflexivity|].
  split; [apply (remove_tag_absent "a.txt" "X"); by apply (bool_decide_unpack _)|].
  split; [apply (remove_tag_absent "a.txt" " x"); by apply (bool_decide_unpack _)|].
  split; reflexivity.
Defined.

(** ** The store invariant under the mutations *)

Section Invariant.
Implicit Types (db : gmap string (list string)) (l : list string).

Lemma append_tags_inv tags l :
  NoDup l → Forall tag_ok l →
  NoDup (foldl append_tag l tags) ∧ Forall tag_ok (foldl append_tag l tags).
Proof.
  intros Hnd Hok. destruct (append_tags_spec tags l) as (news & -> & Hn & Hin).
  split.
  - apply NoDup_app. split; [done|]. split; [|done].
    intros t Ht Hc%Hin. by destruct Hc.
  - apply Forall_app. split; [done|]. apply Forall_forall.
    intros t (_ & Hne & x & _ & ->)%Hin. by apply tag_ok_normalize.
Qed.

Lemma append_tags_nonempty tags l :
  l ≠ [] ∨ some_tag tags → foldl append_tag l tags ≠ [].
Proof.
  destruct (append_tags_spec tags l) as (news & -> & _ & Hin).
  intros [Hl|Hs]; [by destruct l|].
  destruct l as [|t l]; [|done]. simpl.
  apply Exists_exists in Hs as (x & Hx & Hne).
  assert (PyStr.normalize x ∈ news) as Hm.
  { apply Hin. split; [apply not_elem_of_nil|]. split; [done|]. by exists x. }
  intros ->. by apply elem_of_nil in Hm.
Qed.

Lemma tag_file_tags_inv tags db key :
  tags_inv db → tags_inv (tag_file tags db key).
Proof.
  intros Hinv p l. destruct (decide (key = p)) as [<-|Hne].
  - rewrite tag_file_lookup. intros [= <-].
    destruct (db !! key) as [l0|] eqn:E; simpl.
    + destruct (Hinv _ _ E). by apply append_tags_inv.
    + apply append_tags_inv; constructor.
  - rewrite tag_file_lookup_ne by done. apply Hinv.
Qed.

Lemma tag_file_store_inv tags db key :
  some_tag tags → store_inv db → store_inv (tag_file tags db key).
Proof.
  intros Hs Hinv p l. destruct (decide (key = p)) as [<-|Hne].
  - rewrite tag_file_lookup. intros [= <-].
    destruct (db !! key) as [l0|] eqn:E; simpl.
    + destruct (Hinv _ _ E) as (? & ? & ?).
      split; [apply append_tags_nonempty; by left|by apply append_tags_inv].
    + split; [apply append_tags_nonempty; by right|].
      apply append_tags_inv; constructor.
  - rewrite tag_file_lookup_ne by done. apply Hinv.
Qed.

Lemma tag_files_tags_inv tags files : ∀ db,
  tags_inv db → tags_inv (foldl (tag_file tags) db files).
Proof.
  induction files as [|f files IH]; intros db H; simpl; [done|].
  by apply IH, tag_file_tags_inv.
Qed.

Lemma tag_files_store_inv tags files : ∀ db,
  some_tag tags → store_inv db → store_inv (foldl (tag_file tags) db files).
Proof.
  induction files as [|f files IH]; intros db Hs H; simpl; [done|].
  by apply IH, tag_file_store_inv.
Qed.

Lemma list_remove_subseteq t l : list_remove t l ⊆ l.
Proof.
  induction l as [|y l IH]; simpl; [done|].
  case_decide; set_solver.
Qed.

Lemma list_remove_NoDup t l : NoDup l → NoDup (list_remove t l).
Proof.
  induction l as [|y l IH]; simpl; [done|].
  intros [Hy Hnd]%NoDup_cons. case_decide; [done|].
  apply NoDup_cons. split; [|auto].
  intros Hc. by apply Hy, (list_remove_subseteq t).
Qed.

Lemma list_remove_Forall (P : string → Prop) t l :
  Forall P l → Forall P (list_remove t l).
Proof.
  rewrite !Forall_forall. intros H x Hx. by apply H, (list_remove_subseteq t).
Qed.

Lemma remove_tag_store_inv p t m :
  store_inv (tags_db m) → store_inv (tags_db (remove_tag p t m)).
Proof.
  intros Hinv. unfold remove_tag.
  destruct (tags_db m !! PyPath.str_Path p) as [l|] eqn:E; [|done].
  case_decide as Hin; [|done]. simpl.
  destruct (Hinv _ _ E) as (_ & Hnd & Hok).
  pose proof (list_remove_NoDup t l Hnd) as Hnd'.
  pose proof (list_remove_Forall tag_ok t l Hok) as Hok'.
  destruct (list_remove t l) as [|t' l'] eqn:El; intros k lk.
  - rewrite delete_insert_eq. intros Hk. apply (Hinv k).
    by apply lookup_delete_Some in Hk as [_ ?].
  - destruct (decide (PyPath.str_Path p = k)) as [<-|Hne].
    + rewrite lookup_insert_eq. by intros [= <-].
    + rewrite lookup_insert_ne by done. apply Hinv.
Qed.

Lemma store_inv_tags_inv db : store_inv db → tags_inv db.
Proof. intros H p l Hl. by destruct (H p l Hl) as (_ & ? & ?). Qed.

Lemma store_inv_split db : store_inv db ↔ nonempty_inv db ∧ tags_inv db.
Proof.
  split.
  - intros H. split; intros p l Hl; by destruct (H p l Hl) as (? & ? & ?).
  - intros [Hn Ht] p l Hl. destruct (Ht p l Hl). split; [by eapply Hn|done].
Qed.

Lemma remove_tag_tags_inv p t m :
  tags_inv (tags_db m) → tags_inv (tags_db (remove_tag p t m)).
Proof.
  intros Hinv. unfold remove_tag.
  destruct (tags_db m !! PyPath.str_Path p) as [l|] eqn:E; [|done].
  case_decide as Hin; [|done]. simpl.
  destruct (Hinv _ _ E) as (Hnd & Hok).
  pose proof (list_remove_NoDup t l Hnd) as Hnd'.
  pose proof (list_remove_Forall tag_ok t l Hok) as Hok'.
  destruct (list_remove t l) as [|t' l'] eqn:El; intros k lk.
  - rewrite delete_insert_eq. intros Hk. apply (Hinv k).
    by apply lookup_delete_Some in Hk as [_ ?].
  - destruct (decide (PyPath.str_Path p = k)) as [<-|Hne].
    + rewrite lookup_insert_eq. by intros [= <-].
    + rewrite lookup_insert_ne by done. apply Hinv.
Qed.

Lemma remove_tag_nonempty_inv p t m :
  nonempty_inv (tags_db m) → nonempty_inv (tags_db (remove_tag p t m)).
Proof.
  intros Hinv. unfold remove_tag.
  destruct (tags_db m !! PyPath.str_Path p) as [l|] eqn:E; [|done].
  case_decide as Hin; [|done]. simpl.
  destruct (list_remove t l) as [|t' l'] eqn:El; intros k lk.
  - rewrite delete_insert_eq. intros Hk. apply (Hinv k).
    by apply lookup_delete_Some in Hk as [_ ?].
  - destruct (decide (PyPath.str_Path p = k)) as [<-|Hne].
    + rewrite lookup_insert_eq. by intros [= <-].
    + rewrite lookup_insert_ne by done. apply Hinv.
Qed.

Lemma tag_file_nonempty_inv tags db key :
  some_tag tags → nonempty_inv db → nonempty_inv (tag_file tags db key).
Proof.
  intros Hs Hinv p l. destruct (decide (key = p)) as [<-|Hne].
  - rewrite tag_file_lookup. intros [= <-].
    apply append_tags_nonempty. by right.
  - rewrite tag_file_lookup_ne by done. apply Hinv.
Qed.

Lemma tag_files_nonempty_inv tags files : ∀ db,
  some_tag tags → nonempty_inv db →
  nonempty_inv (foldl (tag_file tags) db files).
Proof.
  induction files as [|f files IH]; intros db Hs H; simpl; [done|].
  by apply IH, tag_file_nonempty_inv.
Qed.

End Invariant.

(** ** The batches of [add_tags_to_directory] *)

Section Batches.

Lemma batch_loop files tags cb : ∀ (starts : list nat) m calls,
  let r := foldl (batch_step files tags cb) (m, calls) starts in
  tags_db r.1
  = foldl (tag_file tags) (tags_db m) (concat (slice files <$> starts))
  ∧ save_queue r.1 = save_queue m + length starts
  ∧ last_save r.1 = last_save m
  ∧ pending_changes r.1
    = (if starts is [] then pending_changes m else true)
  ∧ r.2 = calls ++ (if cb then progress_of (length files) <$> starts else []).
Proof.
  induction starts as [|i starts IH]; intros m calls; simpl.
  - repeat split; [lia|]. by destruct cb; rewrite app_nil_r.
  - specialize (IH (batch_step files tags cb (m, calls) i).1
                   (batch_step files tags cb (m, calls) i).2).
    rewrite <- surjective_pairing in IH. simpl in IH.
    destruct IH as (Hdb & Hq & Hls & Hp & Hc).
    rewrite Hdb, Hq, Hls, Hc, foldl_app. unfold slice.
    repeat split; [lia|by destruct starts|].
    destruct cb; [by rewrite <- app_assoc|done].
Qed.

Lemma slices_seq (files : list string) k : ∀ a,
  concat (slice files <$> ((λ j, j * batch_size) <$> seq a k))
  = take (k * batch_size) (drop (a * batch_size) files).
Proof.
  induction k as [|k IH]; intros a; simpl; [done|].
  rewrite IH. unfold slice.
  replace (S a * batch_size) with (a * batch_size + batch_size) by lia.
  rewrite <- drop_drop. apply take_take_drop.
Qed.

Lemma batch_count_covers total : total ≤ batch_count total * batch_size.
Proof.
  unfold batch_count, batch_size.
  pose proof (Nat.div_mod_eq (total + 100 - 1) 100).
  pose proof (Nat.mod_upper_bound (total + 100 - 1) 100). lia.
Qed.

Lemma batch_count_tight total :
  0 < total → (batch_count total - 1) * batch_size < total.
Proof.
  unfold batch_count, batch_size. intros Hpos.
  pose proof (Nat.div_mod_eq (total + 100 - 1) 100).
  pose proof (Nat.mod_upper_bound (total + 100 - 1) 100). lia.
Qed.

Lemma slices_all (files : list string) :
  concat (slice files <$> py_range_step (length files) batch_size) = files.
Proof.
  unfold py_range_step. rewrite slices_seq.
  change (drop (0 * batch_size) files) with files.
  apply firstn_all2, batch_count_covers.
Qed.

Lemma add_tags_to_directory_unfold directory tree tags cb m :
  let files := walk_files directory tree in
  let r := add_tags_to_directory directory tree tags cb m in
  r.1.1 = length files
  ∧ tags_db r.1.2 = foldl (tag_file tags) (tags_db m) files
  ∧ save_queue r.1.2 = save_queue m + batch_count (length files)
  ∧ r.2 = (if cb then progress_of (length files)
                        <$> py_range_step (length files) batch_size
           else []).
Proof.
  intros files r. subst r. unfold add_tags_to_directory. simpl.
  fold files.
  destruct (batch_loop files tags cb
              (py_range_step (length files) batch_size) m [])
    as (Hdb & Hq & _ & _ & Hc).
  rewrite Hdb, Hq, Hc, slices_all. repeat split.
  unfold py_range_step, batch_count. by rewrite !length_fmap, length_seq.
Qed.

End Batches.

(** C6, as the code has it, in two parts that stand each on its own.
    The tags: from a store in which every stored tag is non-empty,
    unchanged by [lower] and [strip], and occurs once in its list,
    [add_tags], [add_tags_to_directory] and [remove_tag] lead to such a
    store, whatever their arguments.  The keys: from a store in which no
    key has an empty list, [remove_tag] leads to such a store, and so do
    [add_tags] and [add_tags_to_directory] when some tag of the call is
    not blank; [remove_tag] deletes the key whose last tag it removes.
    The two parts together are the invariant of the data model. *)
Theorem mutations_keep_store_inv (m : manager) :
  (tags_inv (tags_db m) →
     (∀ p T, tags_inv (tags_db (add_tags p T m)))
     ∧ (∀ d tree T cb,
          tags_inv (tags_db (add_tags_to_directory d tree T cb m).1.2))
     ∧ (∀ p t, tags_inv (tags_db (remove_tag p t m))))
  ∧ (nonempty_inv (tags_db m) →
     (∀ p t, nonempty_inv (tags_db (remove_tag p t m)))
     ∧ (∀ p T, some_tag T → nonempty_inv (tags_db (add_tags p T m)))
     ∧ (∀ d tree T cb, some_tag T →
          nonempty_inv (tags_db (add_tags_to_directory d tree T cb m).1.2)))
  ∧ (∀ p t, get_tags p m = [t] →
       tags_db (remove_tag p t m) !! PyPath.str_Path p = None)
  ∧ (store_inv (tags_db m) →
     (∀ p t, store_inv (tags_db (remove_tag p t m)))
     ∧ (∀ p T, some_tag T → store_inv (tags_db (add_tags p T m)))
     ∧ (∀ d tree T cb, some_tag T →
          store_inv (tags_db (add_tags_to_directory d tree T cb m).1.2))).
Proof.
  split.
  { intros Hinv. split; [intros; by apply tag_file_tags_inv|]. split.
    - intros d tree T cb.
      destruct (add_tags_to_directory_unfold d tree T cb m) as (_ & -> & _).
      by apply tag_files_tags_inv.
    - intros. by apply remove_tag_tags_inv. }
  split.
  { intros Hinv. split; [intros; by apply remove_tag_nonempty_inv|].
    split; [intros; by apply tag_file_nonempty_inv|].
    intros d tree T cb Hs.
    destruct (add_tags_to_directory_unfold d tree T cb m) as (_ & -> & _).
    by apply tag_files_nonempty_inv. }
  split.
  { intros p t. unfold get_tags, remove_tag.
    destruct (tags_db m !! PyPath.str_Path p) as [l|] eqn:E; simpl.
    - intros ->. rewrite decide_True by left. simpl.
      rewrite decide_True by done. simpl. apply lookup_delete_eq.
    - done. }
  intros Hinv.
  split; [intros; by apply remove_tag_store_inv|].
  split; [intros; by apply tag_file_store_inv|].
  intros d tree T cb Hs.
  destruct (add_tags_to_directory_unfold d tree T cb m) as (_ & -> & _).
  by apply tag_files_store_inv.
Qed.

Lemma mutations_keep_store_inv_witness :
  let m := add_tags "a.txt" ["Red "; "blue"] (init_manager ∅) in
  tags_db m = {["a.txt" := ["red"; "blue"]]}
  ∧ store_inv (tags_db (remove_tag "a.txt" "red" m))
  ∧ store_inv (tags_db (add_tags "b.txt" [" "; "New"] m))
  ∧ tags_inv (tags_db (add_tags "b.txt" [" "] m)).
Proof.
  assert (H0 : store_inv (tags_db (init_manager ∅))).
  { intros p l Hl. simpl in Hl. by rewrite lookup_empty in Hl. }
  assert (Hm : store_inv (tags_db (add_tags "a.txt" ["Red "; "blue"]
                                     (init_manager ∅)))).
  { apply (mutations_keep_store_inv (init_manager ∅)); [done|].
    by apply (bool_decide_unpack _). }
  split; [reflexivity|]. split.
  - by apply (mutations_keep_store_inv _).
  - split.
    + apply (mutations_keep_store_inv _); [done|].
      by apply (bool_decide_unpack _).
    + apply (mutations_keep_store_inv _). by apply store_inv_tags_inv.
Defined.

(** C6 as stated fails: [add_tags] (and likewise the batch applier) on a
    path without an entry and tags that are all blank, or none, leaves
    the path mapped to the empty list. *)
Lemma add_tags_leaves_empty_list :
  store_inv (tags_db (init_manager ∅))
  ∧ tags_db (add_tags "a.txt" [" "] (init_manager ∅)) !! "a.txt" = Some []
  ∧ ¬ store_inv (tags_db (add_tags "a.txt" [" "] (init_manager ∅)))
  ∧ ¬ store_inv (tags_db (add_tags_to_directory "d" (Dir ["f"] []) []
                            false (init_manager ∅)).1.2).
Proof.
  split; [intros p l Hl; simpl in Hl; by rewrite lookup_empty in Hl|].
  split; [reflexivity|]. split.
  - intros H. by destruct (H "a.txt" [] eq_refl) as [? _].
  - intros H. by destruct (H "d/f" [] eq_refl) as [? _].
Qed.

(** ** Path spellings and stored keys *)

Section Spellings.
Import PyPath.

Lemma split_sep_nonempty s : split_sep s ≠ [].
Proof.
  destruct s as [|c s]; simpl; [done|].
  case_decide; [done|]. by destruct (split_sep s).
Qed.

Lemma split_sep_has_sep s : Forall (λ x, has_sep x = false) (split_sep s).
Proof.
  induction s as [|c s IH]; simpl; [by repeat constructor|].
  case_decide as Hc; [by constructor|].
  destruct (split_sep s) as [|x xs]; simpl.
  - repeat constructor. simpl. by rewrite bool_decide_eq_false_2.
  - apply Forall_cons in IH as [Hx Hxs]. constructor; [|done].
    simpl. by rewrite bool_decide_eq_false_2.
Qed.

Lemma split_sep_plain x : has_sep x = false → split_sep x = [x].
Proof.
  induction x as [|c x IH]; simpl; [done|].
  intros [Hc Hx]%orb_false_elim. apply bool_decide_eq_false in Hc.
  rewrite decide_False by done. by rewrite IH.
Qed.

Lemma split_sep_app x rest :
  has_sep x = false → split_sep (x +:+ String sep rest) = x :: split_sep rest.
Proof.
  induction x as [|c x IH]; simpl.
  - done.
  - intros [Hc Hx]%orb_false_elim. apply bool_decide_eq_false in Hc.
    rewrite decide_False by done. by rewrite IH.
Qed.

Lemma split_join_sep parts :
  parts ≠ [] → Forall (λ x, has_sep x = false) parts →
  split_sep (join_sep parts) = parts.
Proof.
  induction parts as [|x parts IH]; [done|]. intros _ [Hx Hr]%Forall_cons.
  destruct parts as [|y parts].
  - by apply split_sep_plain.
  - change (join_sep (x :: y :: parts))
      with (x +:+ String sep (join_sep (y :: parts))).
    rewrite split_sep_app by done. by rewrite IH.
Qed.

Lemma filter_kept_idemp (l : list string) :
  filter kept (filter kept l) = filter kept l.
Proof.
  induction l as [|x l IH]; [done|]. rewrite filter_cons.
  case_decide; [|done]. rewrite filter_cons, decide_True by done.
  by rewrite IH.
Qed.

(** The first character of the joined components is no slash. *)
Lemma join_kept_head parts :
  Forall kept parts → Forall (λ x, has_sep x = false) parts →
  startswith_sep (join_sep parts) = false.
Proof.
  destruct parts as [|x parts]; [done|].
  intros [[Hne _] _]%Forall_cons [Hx _]%Forall_cons.
  destruct x as [|c x]; [done|].
  simpl in Hx. apply orb_false_elim in Hx as [Hc _].
  destruct parts; simpl; done.
Qed.

Lemma splitroot_join root parts :
  root ∈ ["" ; "/"; "//"] →
  Forall kept parts → Forall (λ x, has_sep x = false) parts →
  splitroot (root +:+ join_sep parts) = (root, join_sep parts).
Proof.
  intros Hroot Hk Hs. pose proof (join_kept_head parts Hk Hs) as Hh.
  destruct (join_sep parts) as [|c r] eqn:E.
  - repeat (apply elem_of_cons in Hroot as [->|Hroot]); try done.
    by apply elem_of_nil in Hroot.
  - simpl in Hh. apply bool_decide_eq_false in Hh.
    assert (c ≠ "/"%char) as Hc by done.
    repeat (apply elem_of_cons in Hroot as [->|Hroot]);
      [| | |by apply elem_of_nil in Hroot]; simpl.
    + destruct c as [[] [] [] [] [] [] [] []]; done.
    + destruct c as [[] [] [] [] [] [] [] []]; done.
    + destruct c as [[] [] [] [] [] [] [] []]; done.
Qed.

Lemma splitroot_root p : (splitroot p).1 ∈ ["" ; "/"; "//"].
Proof.
  destruct p as [|c p]; simpl; [set_solver|].
  destruct c as [[] [] [] [] [] [] [] []]; simpl; try set_solver.
  destruct p as [|c p]; simpl; [set_solver|].
  destruct c as [[] [] [] [] [] [] [] []]; simpl; try set_solver.
  destruct p as [|c p]; simpl; [set_solver|].
  destruct c as [[] [] [] [] [] [] [] []]; simpl; set_solver.
Qed.

(** The stored key is a fixed point of the normalization: reading it
    back as a spelling gives the same key. *)
Lemma str_Path_idemp p : str_Path (str_Path p) = str_Path p.
Proof.
  pose proof (splitroot_root p) as Hroot.
  destruct (splitroot p) as [root rel] eqn:Esr. simpl in Hroot.
  set (parts := filter kept (split_sep rel)).
  assert (Hp : str_Path p
               = if decide (root +:+ join_sep parts = "") then "."
                 else root +:+ join_sep parts).
  { unfold str_Path. by rewrite Esr. }
  assert (Hk : Forall kept parts).
  { apply Forall_forall. by intros x [? _]%list_elem_of_filter. }
  assert (Hs : Forall (λ x, has_sep x = false) parts).
  { apply Forall_forall. intros x [_ Hx]%list_elem_of_filter.
    pose proof (split_sep_has_sep rel) as H. rewrite Forall_forall in H. auto. }
  rewrite Hp. case_decide as He; [reflexivity|].
  unfold str_Path. rewrite splitroot_join by done.
  destruct parts as [|x parts'] eqn:Ep.
  - simpl. by rewrite decide_False.
  - rewrite split_join_sep by done.
    rewrite <- Ep. unfold parts. rewrite filter_kept_idemp. fold parts.
    rewrite Ep. by rewrite decide_False.
Qed.

End Spellings.

(** C7, as the code has it.  [add_tags], [get_tags] and [remove_tag]
    reach the dictionary through [str(Path(p))], which drops empty and
    ["."] components and a trailing slash and changes nothing else; that
    form is stable.  Two spellings with the same such form are one key
    to all three methods, so tags added through one are read through the
    other. *)
Theorem same_normal_form_same_key (p q : string) :
  PyPath.str_Path p = PyPath.str_Path q →
  ∀ T t m,
    add_tags q T m = add_tags p T m
    ∧ get_tags q m = get_tags p m
    ∧ remove_tag q t m = remove_tag p t m
    ∧ get_tags q (add_tags p T m) = foldl append_tag (get_tags p m) T
    ∧ get_tags (PyPath.str_Path p) (add_tags p T m)
      = get_tags p (add_tags p T m).
Proof.
  intros E T t m. unfold add_tags, get_tags, remove_tag. rewrite <- E.
  repeat split. 
  - simpl. by rewrite tag_file_lookup.
  - by rewrite str_Path_idemp.
Qed.

Lemma same_normal_form_same_key_witness :
  PyPath.str_Path "./docs//a.txt" = PyPath.str_Path "docs/a.txt/"
  ∧ get_tags "docs/a.txt/"
      (add_tags "./docs//a.txt" ["Work"] (init_manager ∅)) = ["work"].
Proof.
  split; [reflexivity|].
  by destruct (same_normal_form_same_key "./docs//a.txt" "docs/a.txt/"
                 eq_refl ["Work"] "" (init_manager ∅)) as (_ & _ & _ & -> & _).
Defined.

(** C7 as stated fails: a relative and an absolute spelling of one file
    are two keys, and tags added through one are not found through the
    other. *)
Lemma relative_and_absolute_differ :
  spec_same_file "/home/u" "a.txt" "/home/u/a.txt"
  ∧ PyPath.str_Path "a.txt" ≠ PyPath.str_Path "/home/u/a.txt"
  ∧ get_tags "a.txt" (add_tags "a.txt" ["x"] (init_manager ∅)) = ["x"]
  ∧ get_tags "/home/u/a.txt" (add_tags "a.txt" ["x"] (init_manager ∅)) = [].
Proof. repeat split. by vm_compute. Qed.

(** ** The batch applier *)

Lemma progress_calls_range total :
  progress_of total <$> py_range_step total batch_size
  = (λ k, (Nat.min ((k + 1) * batch_size) total, total))
      <$> seq 0 (batch_count total).
Proof.
  unfold py_range_step. fold (batch_count total).
  rewrite <- list_fmap_compose. apply list_fmap_ext.
  intros _ k _. unfold progress_of. simpl. f_equal. f_equal. lia.
Qed.

(** C8, as the code has it.  [add_tags_to_directory] has no recursive
    flag: it always takes every file [os.walk] finds below the directory.
    It returns their number [n]; it tags them all under the names the
    walk gave them; it signals [queue_save] once per batch of 100, that
    is [ceil(n / 100)] times; and with a callback it calls it once per
    batch with [(min(100 (k + 1), n), n)], counts that increase strictly
    and end, when there is a file, at [(n, n)]. *)
Theorem add_tags_to_directory_batches (directory : string) (tree : dirtree)
  (tags : list string) (progress_callback : bool) (m : manager) :
  let files := walk_files directory tree in
  let n := length files in
  let r := add_tags_to_directory directory tree tags progress_callback m in
  r.1.1 = n
  ∧ tags_db r.1.2 = foldl (tag_file tags) (tags_db m) files
  ∧ save_queue r.1.2 = save_queue m + batch_count n
  ∧ r.2 = (if progress_callback
           then (λ k, (Nat.min ((k + 1) * batch_size) n, n))
                  <$> seq 0 (batch_count n)
           else [])
  ∧ (∀ j a b, r.2 !! j = Some a → r.2 !! S j = Some b → a.1 < b.1)
  ∧ (progress_callback = true → 0 < n → last r.2 = Some (n, n)).
Proof.
  intros files n r.
  destruct (add_tags_to_directory_unfold directory tree tags
              progress_callback m) as (Hn & Hdb & Hq & Hc).
  fold files in Hn, Hdb, Hq, Hc. fold r in Hn, Hdb, Hq, Hc. fold n in Hq, Hc.
  rewrite progress_calls_range in Hc.
  split; [done|]. split; [done|]. split; [done|]. split; [done|].
  rewrite Hc. split.
  - destruct progress_callback; [|intros j a b Ha; by rewrite lookup_nil in Ha].
    intros j a b Ha Hb.
    apply list_lookup_fmap_Some in Ha as (ka & -> & Ha).
    apply list_lookup_fmap_Some in Hb as (kb & -> & Hb).
    apply lookup_seq in Ha as [-> Hja]. apply lookup_seq in Hb as [-> Hjb].
    cbn [fst]. assert (0 < n) as Hpos.
    { destruct n; [|lia]. by vm_compute in Hjb; lia. }
    pose proof (batch_count_tight n Hpos). unfold batch_size in *. lia.
  - intros -> Hpos. rewrite fmap_last.
    assert (batch_count n ≠ 0) as Hc0.
    { pose proof (batch_count_covers n). lia. }
    destruct (batch_count n) as [|c] eqn:Ec; [done|].
    rewrite seq_S, last_snoc. cbn [fmap option_fmap option_map]. f_equal. f_equal.
    pose proof (batch_count_covers n). rewrite Ec in *.
    unfold batch_size in *. lia.
Qed.

Example batch_apply_250 :
  let r := add_tags_to_directory "d" flat_250 ["t"] true (init_manager ∅) in
  r.1.1 = 250 ∧ r.2 = [(100, 250); (200, 250); (250, 250)]
  ∧ save_queue r.1.2 = 3
  ∧ get_tags "d/f0" r.1.2 = ["t"] ∧ get_tags "d/f249" r.1.2 = ["t"].
Proof. vm_compute. repeat split. Qed.

(** C8 as stated fails.  The only recursive flag is the check box of
    [MainWindow.add_tags]; unchecked, the 250 files are tagged by 250
    calls of [add_tags], with 250 save signals, no batch and no progress
    call.  And [add_tags_to_directory] itself has no top-level-only mode:
    it counts the file of a sub-directory too. *)
Lemma top_level_only_not_batched :
  (MainWindow_add_tags_directory true "d" flat_250 ["t"] (init_manager ∅)).2
  = [(100, 250); (200, 250); (250, 250)]
  ∧ (MainWindow_add_tags_directory false "d" flat_250 ["t"]
       (init_manager ∅)).2 = []
  ∧ save_queue (MainWindow_add_tags_directory false "d" flat_250 ["t"]
                  (init_manager ∅)).1 = 250
  ∧ (∀ cb, (add_tags_to_directory "d" (Dir ["a"] [("sub", Dir ["b"] [])])
              ["t"] cb (init_manager ∅)).1.1 = 2).
Proof.
  split; [by vm_compute|]. split; [by vm_compute|]. split; [by vm_compute|].
  by intros [].
Qed.

(** ** Saving with retries *)

Section Retry.

Lemma attempt_not_denied_posix doc env d :
  (attempt false doc env d).1 ≠ Denied.
Proof.
  unfold attempt. destruct (temp_out env); [|done..].
  rewrite andb_false_r. by destruct (rename_ok env).
Qed.

Lemma attempt_replaced win32 doc env d d' :
  attempt win32 doc env d = (Replaced, d') → db_file d' = Some doc.
Proof.
  unfold attempt. destruct (temp_out env); [|done..].
  destruct (bool_decide _ && win32);
    [destruct (remove_out env)|]; destruct (rename_ok env); try done;
    by intros [= <-].
Qed.

(** C3, as the code has it.  When every attempt of
    [_save_db_with_retry] ends in the outer exception handler, there are
    exactly 3 attempts, the sleeps between them are 1 and 2 time units
    (3 in all: the third failure is re-raised without a sleep), and the
    call ends by that exception.  And where the platform is not win32, a
    call that returns has renamed the new document onto the target in its
    last attempt. *)
Theorem retry_exhausted_raises (win32 : bool) (envs : nat → attempt_env)
  (db : gmap string (list string)) (d : disk) :
  let r := _save_db_with_retry win32 envs db d in
  (Forall (λ e, e = Raised) (log r) →
     length (log r) = 3 ∧ sleeps r = [1; 2]%Z
     ∧ foldr Z.add 0%Z (sleeps r) = 3%Z ∧ ended r = Raises)
  ∧ (win32 = false → ended r = Returns →
     last (log r) = Some Replaced ∧ db_file (files r) = Some (Json.dumps db)).
Proof.
  unfold _save_db_with_retry, _save_db_with_retry_from. simpl. split.
  - destruct (attempt win32 _ (envs 0) d) as [[] d1]; simpl;
      try (destruct (attempt win32 _ (envs 1) d1) as [[] d2]; simpl);
      try (destruct (attempt win32 _ (envs 2) d2) as [[] d3]; simpl);
      intros H; try done; exfalso;
      repeat match goal with
             | H : Forall _ (_ :: _) |- _ => apply Forall_cons in H as [? H]
             end; done.
  - intros ->.
    destruct (attempt false _ (envs 0) d) as [[] d1] eqn:E1; simpl.
    { intros _. split; [done|]. by apply attempt_replaced in E1. }
    { by pose proof (attempt_not_denied_posix (Json.dumps db) (envs 0) d) as H;
        rewrite E1 in H. }
    destruct (attempt false _ (envs 1) d1) as [[] d2] eqn:E2; simpl.
    { intros _. split; [done|]. by apply attempt_replaced in E2. }
    { by pose proof (attempt_not_denied_posix (Json.dumps db) (envs 1) d1) as H;
        rewrite E2 in H. }
    destruct (attempt false _ (envs 2) d2) as [[] d3] eqn:E3; simpl; [|..|done].
    { intros _. split; [done|]. by apply attempt_replaced in E3. }
    { by pose proof (attempt_not_denied_posix (Json.dumps db) (envs 2) d2) as H;
        rewrite E3 in H. }
Qed.

Lemma retry_exhausted_raises_witness :
  let r := _save_db_with_retry false rename_always_fails example_store
             (Disk None None []) in
  log r = [Raised; Raised; Raised] ∧ sleeps r = [1; 2]%Z ∧ ended r = Raises.
Proof.
  destruct (retry_exhausted_raises false rename_always_fails example_store
              (Disk None None [])) as [H _].
  split; [reflexivity|].
  destruct H as (_ & ? & _ & ?); [by repeat constructor|done].
Defined.

(** C3 as stated fails: with every attempt failing there are two sleeps,
    1 and 2, not 1, 2 and 4, and 3 time units in all, not 7. *)
Lemma retry_sleeps_not_1_2_4 :
  let r := _save_db_with_retry false rename_always_fails example_store
             (Disk None None []) in
  log r = [Raised; Raised; Raised]
  ∧ sleeps r ≠ [1; 2; 4]%Z
  ∧ foldr Z.add 0%Z (sleeps r) ≠ 7%Z.
Proof. vm_compute. repeat split; discriminate. Qed.

(** On win32, three refusals to remove the old file: the sleeps are
    1, 1, 1, the loop runs out and the call returns, the old file still
    in place and three temporary files left. *)
Example save_denied_thrice :
  let old := Json.dumps ∅ in
  let r := _save_db_with_retry true remove_always_denied example_store
             (Disk (Some old) None []) in
  ended r = Returns ∧ log r = [Denied; Denied; Denied]
  ∧ sleeps r = [1; 1; 1]%Z ∧ db_file (files r) = Some old
  ∧ length (temp_files (files r)) = 3.
Proof. vm_compute. repeat split. Qed.

End Retry.

(** ** Loading *)

(** What the handler of [_load_db] is written for.  When
    [file_tags.json] is missing, or blank, or rejected by the decoder
    with [JSONDecodeError], [_load_db] returns the empty dictionary and
    raises nothing.  A missing or blank file leaves the files as they
    are; a rejected one is renamed to [.backup], unless the rename
    fails, which is ignored. *)
Lemma load_fails_soft {V : Type} (loads : string → V + exn) (empty : V)
  (env : load_env) (d : disk) :
  unreadable loads env d →
  let r := _load_db loads empty env d in
  r.1 = inl empty
  ∧ r.2 = match db_file d with
          | None => d
          | Some content =>
              if decide (PyStr.strip content = "") then d
              else if backup_rename_fails env then d
              else {| db_file := None; backup_file := Some content;
                      temp_files := temp_files d |}
          end.
Proof.
  unfold unreadable, _load_db. destruct (db_file d) as [content|] eqn:E;
    [|done].
  intros [-> H]. case_decide as Hb; [done|].
  destruct H as [?| ->]; [done|]. simpl. split; [done|].
  rewrite decide_True; [|by intros ->].
  unfold move_to_backup. by rewrite E.
Qed.

(** C4, where the code departs from it.  The handler of [_load_db]
    names three exception classes.  When reading an existing
    [file_tags.json] raises an exception of any other class (a file
    that is not UTF-8 raises [UnicodeDecodeError] in [f.read()]), or the
    decoder does on a file that is not blank, that exception leaves
    [_load_db]: no dictionary is returned and no file is renamed. *)
Theorem load_raises_uncaught {V : Type} (loads : string → V + exn)
  (empty : V) (env : load_env) (d : disk) (content : string) (e : exn) :
  db_file d = Some content →
  load_catches e = false →
  open_raises env = Some e
  ∨ (open_raises env = None ∧ PyStr.strip content ≠ ""
     ∧ loads content = inr e) →
  _load_db loads empty env d = (inr e, d).
Proof.
  intros Hd He H. unfold _load_db. rewrite Hd.
  destruct H as [->|(-> & Hb & Hl)].
  - by rewrite He.
  - rewrite decide_False by done. by rewrite Hl, He.
Qed.

Lemma load_raises_uncaught_witness :
  _load_db (λ _, inl (∅ : gmap string (list string))) ∅
    (LoadEnv (Some UnicodeDecodeError) false) (Disk (Some "x") None [])
  = (inr UnicodeDecodeError, Disk (Some "x") None []).
Proof.
  apply (load_raises_uncaught _ ∅ (LoadEnv (Some UnicodeDecodeError) false)
           (Disk (Some "x") None []) "x" UnicodeDecodeError);
    [reflexivity|reflexivity|by left].
Defined.

(** ** The document read back *)

Section Strings.

Lemma app_cons c s t : String c s +:+ t = String c (s +:+ t).
Proof. reflexivity. Qed.

Lemma app_nil_l_str t : "" +:+ t = t.
Proof. reflexivity. Qed.

Lemma app_assoc_str s t u : (s +:+ t) +:+ u = s +:+ (t +:+ u).
Proof. induction s as [|c s IH]; [done|]. by rewrite !app_cons, IH. Qed.

Lemma length_app_str s t :
  String.length (s +:+ t) = String.length s + String.length t.
Proof. induction s as [|c s IH]; [done|]. rewrite app_cons. simpl. by rewrite IH. Qed.

End Strings.

(** The decoder on what the encoder writes. *)

Section PyJsonRoundTrip.
Import PyJson.

Lemma hex_value_digit k :
  (k < 16)%N → hex_value (hex_digit_of k) = Some k.
Proof.
  intros H.
  assert (k ∈ [0;1;2;3;4;5;6;7;8;9;10;11;12;13;14;15]%N) as Hk.
  { assert (∃ n, n < 16 ∧ k = N.of_nat n) as (n & Hn & ->)
      by (exists (N.to_nat k); lia).
    do 16 (destruct n as [|n]; [set_solver|]). lia. }
  set_unfold in Hk.
  repeat (destruct Hk as [->|Hk]; [reflexivity|]). done.
Qed.

Lemma land_shiftr_digit n i :
  (N.land (N.shiftr n i) 0xF = (n / 2 ^ i) mod 16)%N.
Proof. rewrite N.shiftr_div_pow2. apply (N.land_ones _ 4). Qed.

Lemma decode_u_escape n t :
  (n < 0x10000)%N →
  ∃ h1 h2 h3 h4,
    u_escape n +:+ t
    = String Json.backslash (String "u"
        (String h1 (String h2 (String h3 (String h4 t)))))
    ∧ decode_u h1 h2 h3 h4 = Some n.
Proof.
  intros Hn. eexists _, _, _, _. split; [reflexivity|].
  unfold decode_u.
  rewrite !hex_value_digit.
  - f_equal. rewrite !land_shiftr_digit.
    change (N.land n 15) with (N.land n (N.ones 4)). rewrite N.land_ones.
    change (2 ^ 12)%N with (16 * (16 * 16))%N. change (2 ^ 8)%N with (16 * 16)%N.
    change (2 ^ 4)%N with 16%N.
    rewrite <- !N.Div0.div_div.
    assert (n / 16 / 16 / 16 < 16)%N.
    { do 3 apply N.Div0.div_lt_upper_bound. done. }
    rewrite (N.mod_small (n / 16 / 16 / 16)) by done.
    pose proof (N.div_mod' n 16). pose proof (N.div_mod' (n / 16) 16).
    pose proof (N.div_mod' (n / 16 / 16) 16). lia.
  - change (N.land n 15) with (N.land n (N.ones 4)). rewrite N.land_ones.
    apply N.mod_lt. done.
  - rewrite land_shiftr_digit. by apply N.mod_lt.
  - rewrite land_shiftr_digit. by apply N.mod_lt.
  - rewrite land_shiftr_digit. by apply N.mod_lt.
Qed.


Lemma scan_u_alone h1 h2 h3 h4 uni r :
  decode_u h1 h2 h3 h4 = Some uni →
  (is_high uni = true → no_low_ahead r) →
  scan_string (String Json.backslash (String "u"
     (String h1 (String h2 (String h3 (String h4 r))))))
  = prepend uni (scan_string r).
Proof.
  intros Hd Hr.
  change (scan_string (String Json.backslash (String "u"
     (String h1 (String h2 (String h3 (String h4 r)))))))
    with (match decode_u h1 h2 h3 h4 with
          | Some uni =>
              let alone := prepend uni (scan_string r) in
              if is_high uni then
                match r with
                | String b (String u (String k1 (String k2
                    (String k3 (String k4 r2))))) =>
                    if decide (b = Json.backslash ∧ u = "u"%char) then
                      match decode_u k1 k2 k3 k4 with
                      | Some uni2 =>
                          if is_low uni2
                          then prepend (join_surrogates uni uni2)
                                 (scan_string r2)
                          else alone
                      | None => alone
                      end
                    else alone
                | _ => alone
                end
              else alone
          | None => None
          end).
  rewrite Hd. cbv zeta. destruct (is_high uni) eqn:Hh; [|done].
  specialize (Hr eq_refl).
  destruct r as [|b [|u [|k1 [|k2 [|k3 [|k4 r2]]]]]]; try done.
  destruct (decide _) as [[-> ->]|]; [|done].
  destruct (decode_u k1 k2 k3 k4) as [lo|] eqn:Hk; [|done].
  by rewrite (Hr _ _ _ _ _ _ eq_refl Hk).
Qed.

Lemma scan_u_pair h1 h2 h3 h4 k1 k2 k3 k4 hi lo r :
  decode_u h1 h2 h3 h4 = Some hi → is_high hi = true →
  decode_u k1 k2 k3 k4 = Some lo → is_low lo = true →
  scan_string (String Json.backslash (String "u"
     (String h1 (String h2 (String h3 (String h4
       (String Json.backslash (String "u"
          (String k1 (String k2 (String k3 (String k4 r))))))))))))
  = prepend (join_surrogates hi lo) (scan_string r).
Proof.
  intros Hh Hhi Hk Hlo.
  change (scan_string (String Json.backslash (String "u"
     (String h1 (String h2 (String h3 (String h4
       (String Json.backslash (String "u"
          (String k1 (String k2 (String k3 (String k4 r)))))))))))))
    with (match decode_u h1 h2 h3 h4 with
          | Some uni =>
              let alone := prepend uni (scan_string (String Json.backslash (String "u"
          (String k1 (String k2 (String k3 (String k4 r))))))) in
              if is_high uni then
                      match decode_u k1 k2 k3 k4 with
                      | Some uni2 =>
                          if is_low uni2
                          then prepend (join_surrogates uni uni2)
                                 (scan_string r)
                          else alone
                      | None => alone
                      end
              else alone
          | None => None
          end).
  by rewrite Hh, Hhi, Hk, Hlo.
Qed.

Lemma lor_shiftl_low a b k :
  (b < 2 ^ k)%N → N.lor (N.shiftl a k) b = (a * 2 ^ k + b)%N.
Proof.
  intros Hb. rewrite N.shiftl_mul_pow2.
  rewrite <- N.lxor_lor, <- N.add_nocarry_lxor; [done| |].
  all: apply N.bits_inj_0; intros i; rewrite N.land_spec.
  all: destruct (decide (i < k)%N) as [Hi|Hi].
  all: try (rewrite (N.mul_pow2_bits_low a k i Hi); done).
  all: rewrite <- (N.mod_small b (2 ^ k)) by done.
  all: rewrite (N.mod_pow2_bits_high b k i) by lia.
  all: apply andb_false_r.
Qed.

Lemma surrogates_of c :
  (0x10000 ≤ c < 0x110000)%N →
  (high_surrogate c < 0x10000)%N ∧ is_high (high_surrogate c) = true
  ∧ (low_surrogate c < 0x10000)%N ∧ is_low (low_surrogate c) = true
  ∧ join_surrogates (high_surrogate c) (low_surrogate c) = c.
Proof.
  intros Hc. unfold high_surrogate, low_surrogate, join_surrogates.
  rewrite N.shiftr_div_pow2.
  change 0x3FF%N with (N.ones 10). rewrite !N.land_ones.
  change (2 ^ 10)%N with 1024%N. change (0xD800 - 0x40)%N with 0xD7C0%N.
  pose proof (N.div_mod' c 1024) as Hdm.
  pose proof (N.mod_lt c 1024 ltac:(done)) as Hm.
  set (q := (c / 1024)%N) in *. set (m := (c mod 1024)%N) in *.
  assert (64 ≤ q < 1088)%N as Hq by lia.
  assert ((0xD7C0 + q) mod 1024 = q - 64)%N as E1.
  { symmetry. apply (N.mod_unique _ _ 54); lia. }
  assert ((0xDC00 + m) mod 1024 = m)%N as E2.
  { symmetry. apply (N.mod_unique _ _ 55); lia. }
  rewrite E1, E2. unfold is_high, is_low.
  split; [lia|]. split.
  { apply andb_true_iff. split; apply N.leb_le; lia. }
  split; [lia|]. split.
  { apply andb_true_iff. split; apply N.leb_le; lia. }
  rewrite lor_shiftl_low by done. change (2 ^ 10)%N with 1024%N. lia.
Qed.


Lemma ascii_of_N_inv_eq c a :
  (c < 256)%N → ascii_of_N c = a → c = N_of_ascii a.
Proof. intros Hc <-. by rewrite N_ascii_embedding. Qed.

Lemma scan_string_escape_char c t :
  (c < 0x110000)%N → (is_high c = true → no_low_ahead t) →
  scan_string (escape_char c +:+ t) = prepend c (scan_string t).
Proof.
  intros Hc Hhigh. unfold escape_char.
  repeat (destruct (decide (c = _)) as [->|?]; [reflexivity|]).
  destruct (decide (32 ≤ c ≤ 126)%N) as [Hp|Hp].
  { rewrite app_cons, app_nil_l_str.
    assert (N_of_ascii (ascii_of_N c) = c) as E
      by (apply N_ascii_embedding; lia).
    change (scan_string (String (ascii_of_N c) t))
      with (if decide (ascii_of_N c = Json.dquote) then Some ([], t)
            else if decide (ascii_of_N c = Json.backslash)
              then match t with
                   | String e s'' =>
                       if decide (e = "u"%char) then
                         match s'' with
                         | String h1 (String h2 (String h3 (String h4 r))) =>
                             match decode_u h1 h2 h3 h4 with
                             | Some uni =>
                                 let alone := prepend uni (scan_string r) in
                                 if is_high uni then
                                   match r with
                                   | String b (String u (String k1 (String k2
                                       (String k3 (String k4 r2))))) =>
                                       if decide (b = Json.backslash ∧ u = "u"%char) then
                                         match decode_u k1 k2 k3 k4 with
                                         | Some uni2 =>
                                             if is_low uni2
                                             then prepend (join_surrogates uni uni2)
                                                    (scan_string r2)
                                             else alone
                                         | None => alone
                                         end
                                       else alone
                                   | _ => alone
                                   end
                                 else alone
                             | None => None
                             end
                         | _ => None
                         end
                       else
                         match unescape e with
                         | Some ch => prepend ch (scan_string s'')
                         | None => None
                         end
                   | EmptyString => None
                   end
            else if decide (nat_of_ascii (ascii_of_N c) < 32) then None
            else prepend (N_of_ascii (ascii_of_N c)) (scan_string t)).
    rewrite decide_False
      by (intros H; apply ascii_of_N_inv_eq in H; [done|lia]).
    rewrite decide_False
      by (intros H; apply ascii_of_N_inv_eq in H; [done|lia]).
    rewrite decide_False by (unfold nat_of_ascii; rewrite E; lia).
    by rewrite E. }
  destruct (decide (0x10000 ≤ c)%N) as [Hb|Hb].
  - destruct (surrogates_of c ltac:(lia)) as (Hh & Hhi & Hl & Hlo & Hj).
    rewrite app_assoc_str.
    destruct (decode_u_escape (low_surrogate c) t Hl)
      as (k1 & k2 & k3 & k4 & -> & Hk).
    destruct (decode_u_escape (high_surrogate c)
                (String Json.backslash (String "u"
                   (String k1 (String k2 (String k3 (String k4 t)))))) Hh)
      as (h1 & h2 & h3 & h4 & -> & Hd).
    by rewrite (scan_u_pair _ _ _ _ _ _ _ _ _ _ _ Hd Hhi Hk Hlo), Hj.
  - destruct (decode_u_escape c t ltac:(lia)) as (h1 & h2 & h3 & h4 & -> & Hd).
    by apply scan_u_alone.
Qed.

Lemma no_low_ahead_quote rest : no_low_ahead (String Json.dquote rest).
Proof. intros k1 k2 k3 k4 r2 lo H. discriminate H. Qed.

Lemma no_low_ahead_escape_char c t :
  (c < 0x110000)%N → is_low c = false → no_low_ahead (escape_char c +:+ t).
Proof.
  intros Hc Hlow k1 k2 k3 k4 r2 lo. unfold escape_char.
  repeat (destruct (decide (c = _)) as [->|?]; [discriminate 1|]).
  destruct (decide (32 ≤ c ≤ 126)%N) as [Hp|Hp].
  { rewrite app_cons. intros H. injection H as H _.
    apply ascii_of_N_inv_eq in H; [done|lia]. }
  destruct (decide (0x10000 ≤ c)%N) as [Hb|Hb].
  - destruct (surrogates_of c ltac:(lia)) as (Hh & Hhi & Hl & Hlo & Hj).
    rewrite app_assoc_str.
    destruct (decode_u_escape (high_surrogate c)
                (u_escape (low_surrogate c) +:+ t) Hh)
      as (h1 & h2 & h3 & h4 & -> & Hd).
    intros H. injection H as <- <- <- <- _. rewrite Hd. intros [= <-].
    unfold is_high, is_low in *.
    apply andb_true_iff in Hhi as [_ H2%N.leb_le].
    apply andb_false_iff. left. apply N.leb_gt. lia.
  - destruct (decode_u_escape c t ltac:(lia)) as (h1 & h2 & h3 & h4 & -> & Hd).
    intros H. injection H as <- <- <- <- _. rewrite Hd. by intros [= <-].
Qed.

Lemma no_low_ahead_escape s rest :
  is_str s → match s with b :: _ => is_low b = false | [] => True end →
  no_low_ahead (escape s +:+ String Json.dquote rest).
Proof.
  destruct s as [|b s]; intros Hs Hb.
  - apply no_low_ahead_quote.
  - simpl escape. rewrite app_assoc_str.
    apply no_low_ahead_escape_char; [|done]. by inversion Hs.
Qed.

Lemma scan_string_escape s rest :
  plain_str s →
  scan_string (escape s +:+ String Json.dquote rest) = Some (s, rest).
Proof.
  intros [Hs Hp]. induction s as [|c s IH].
  - reflexivity.
  - inversion Hs as [|?? Hc Hs']; subst. destruct Hp as [Hcs Hp].
    simpl escape. rewrite app_assoc_str, scan_string_escape_char, IH; try done.
    intros Hhi. apply no_low_ahead_escape; [done|].
    destruct s as [|b s]; [done|].
    destruct (is_low b) eqn:Hb; [|done]. destruct Hcs. by rewrite Hhi.
Qed.

Lemma encode_string_app s rest :
  encode_string s +:+ rest = String Json.dquote (escape s +:+ String Json.dquote rest).
Proof. unfold encode_string. by rewrite app_cons, app_assoc_str. Qed.

Lemma skip_ws_spaces n t : skip_ws (Json.spaces n +:+ t) = skip_ws t.
Proof. induction n as [|n IH]; [done|]. simpl Json.spaces. by rewrite app_cons. Qed.

Lemma skip_ws_newline_indent k t :
  skip_ws (Json.newline_indent k +:+ t) = skip_ws t.
Proof.
  unfold Json.newline_indent. rewrite app_cons.
  change (skip_ws (String Json.newline ?s)) with (skip_ws s).
  apply skip_ws_spaces.
Qed.

Lemma scan_items_last fuel x r r' :
  plain_str x → skip_ws r = String "]" r' →
  scan_items (S fuel) (encode_string x +:+ r) = Some ([x], r').
Proof.
  intros Hx H. rewrite encode_string_app. simpl.
  by rewrite scan_string_escape, H by done.
Qed.

Lemma scan_items_next fuel x r r' :
  plain_str x → skip_ws r = String "," r' →
  scan_items (S fuel) (encode_string x +:+ r)
  = match scan_items fuel (skip_ws r') with
    | Some (xs, r'') => Some (x :: xs, r'')
    | None => None
    end.
Proof.
  intros Hx H. rewrite encode_string_app. simpl.
  by rewrite scan_string_escape, H by done.
Qed.

Lemma skip_ws_encode_string x t :
  skip_ws (encode_string x +:+ t) = encode_string x +:+ t.
Proof. by rewrite encode_string_app. Qed.

Lemma join_with_cons2 sep x y l :
  Json.join_with sep (x :: y :: l) = x +:+ sep +:+ Json.join_with sep (y :: l).
Proof. reflexivity. Qed.

Lemma skip_ws_join_strings sep l t :
  l ≠ [] →
  skip_ws (Json.join_with sep (encode_string <$> l) +:+ t)
  = Json.join_with sep (encode_string <$> l) +:+ t.
Proof.
  destruct l as [|x [|y l]]; [done|..]; intros _.
  - apply skip_ws_encode_string.
  - rewrite !fmap_cons, join_with_cons2, app_assoc_str.
    apply skip_ws_encode_string.
Qed.

Lemma scan_items_encoded (l : list (list N)) : ∀ fuel rest,
  Forall plain_str l → l ≠ [] → length l ≤ fuel →
  scan_items fuel
    (Json.join_with ("," +:+ Json.newline_indent 2) (encode_string <$> l)
     +:+ Json.newline_indent 1 +:+ String "]" rest)
  = Some (l, rest).
Proof.
  induction l as [|x l IH]; [done|]. intros fuel rest Hl _ Hfuel.
  inversion Hl as [|?? Hx Hl']; subst.
  destruct fuel as [|fuel]; [simpl in Hfuel; lia|].
  destruct l as [|y l].
  - apply scan_items_last; [done|]. by rewrite skip_ws_newline_indent.
  - rewrite !fmap_cons, join_with_cons2, <- !fmap_cons, !app_assoc_str.
    erewrite scan_items_next; [|done|reflexivity].
    rewrite skip_ws_newline_indent, skip_ws_join_strings by done.
    rewrite IH; [done|done|done|]. simpl in *. lia.
Qed.

Lemma join_strings_head sep l t :
  l ≠ [] → ∃ u, Json.join_with sep (encode_string <$> l) +:+ t = String Json.dquote u.
Proof.
  destruct l as [|x [|y l]]; [done|..]; intros _.
  - rewrite fmap_cons. simpl Json.join_with. rewrite encode_string_app. by eexists.
  - rewrite !fmap_cons, join_with_cons2, app_assoc_str, encode_string_app.
    by eexists.
Qed.

Lemma scan_array_encoded (l : list (list N)) fuel rest :
  Forall plain_str l → length l ≤ fuel →
  ∃ tail, encode_list l +:+ rest = String "[" tail
          ∧ scan_array fuel tail = Some (l, rest).
Proof.
  intros Hl Hfuel. destruct l as [|x l].
  - exists (String "]" rest). split; reflexivity.
  - exists (Json.newline_indent 2
            +:+ Json.join_with ("," +:+ Json.newline_indent 2) (encode_string <$> x :: l)
            +:+ Json.newline_indent 1 +:+ String "]" rest).
    split.
    + unfold encode_list. by rewrite !app_assoc_str.
    + unfold scan_array. rewrite skip_ws_newline_indent.
      rewrite skip_ws_join_strings by done.
      destruct (join_strings_head ("," +:+ Json.newline_indent 2) (x :: l)
                  (Json.newline_indent 1 +:+ String "]" rest)) as [u Hu]; [done|].
      rewrite Hu. change (scan_items fuel (String Json.dquote u) = Some (x :: l, rest)).
      rewrite <- Hu. by apply scan_items_encoded.
Qed.

Lemma encode_item_app k v rest :
  encode_item (k, v) +:+ rest
  = encode_string k +:+ String ":" (String " " (encode_list v +:+ rest)).
Proof. unfold encode_item. simpl. by rewrite !app_assoc_str. Qed.

Lemma scan_pairs_last fuel k v r r' :
  plain_str k → Forall plain_str v → length v ≤ fuel → skip_ws r = String "}" r' →
  scan_pairs (S fuel) (encode_item (k, v) +:+ r) = Some ([(k, v)], r').
Proof.
  intros Hk Hv Hfuel H. rewrite encode_item_app, encode_string_app.
  destruct (scan_array_encoded v fuel r Hv Hfuel) as (tail & -> & Ha).
  simpl. rewrite scan_string_escape by done. simpl. by rewrite Ha, H.
Qed.

Lemma scan_pairs_next fuel k v r r' :
  plain_str k → Forall plain_str v → length v ≤ fuel → skip_ws r = String "," r' →
  scan_pairs (S fuel) (encode_item (k, v) +:+ r)
  = match scan_pairs fuel (skip_ws r') with
    | Some (kvs, r'') => Some ((k, v) :: kvs, r'')
    | None => None
    end.
Proof.
  intros Hk Hv Hfuel H. rewrite encode_item_app, encode_string_app.
  destruct (scan_array_encoded v fuel r Hv Hfuel) as (tail & -> & Ha).
  simpl. rewrite scan_string_escape by done. simpl. by rewrite Ha, H.
Qed.

Lemma skip_ws_join_items sep (kvs : list (list N * list (list N))) t :
  kvs ≠ [] →
  skip_ws (Json.join_with sep (encode_item <$> kvs) +:+ t)
  = Json.join_with sep (encode_item <$> kvs) +:+ t
  ∧ ∃ u, Json.join_with sep (encode_item <$> kvs) +:+ t = String Json.dquote u.
Proof.
  destruct kvs as [|[k v] [|kv kvs]]; [done|..]; intros _.
  - rewrite fmap_cons. simpl Json.join_with.
    rewrite encode_item_app, encode_string_app. split; [done|by eexists].
  - rewrite !fmap_cons, join_with_cons2, app_assoc_str.
    rewrite encode_item_app, encode_string_app. split; [done|by eexists].
Qed.

Lemma scan_pairs_encoded (kvs : list (list N * list (list N))) : ∀ fuel rest,
  Forall (λ kv, plain_str kv.1 ∧ Forall plain_str kv.2) kvs →
  kvs ≠ [] → pairs_weight kvs ≤ fuel →
  scan_pairs fuel
    (Json.join_with ("," +:+ Json.newline_indent 1) (encode_item <$> kvs)
     +:+ Json.newline_indent 0 +:+ String "}" rest)
  = Some (kvs, rest).
Proof.
  induction kvs as [|[k v] kvs IH]; [done|]. intros fuel rest Hkvs _ Hfuel.
  inversion Hkvs as [|?? [Hk Hv] Hkvs']; subst. simpl in Hk, Hv.
  unfold pairs_weight in Hfuel. rewrite fmap_cons in Hfuel.
  simpl in Hfuel. fold (pairs_weight kvs) in Hfuel.
  destruct fuel as [|fuel]; [lia|].
  destruct kvs as [|kv kvs].
  - rewrite fmap_cons. simpl Json.join_with.
    apply scan_pairs_last; [done|done|lia|]. by rewrite skip_ws_newline_indent.
  - rewrite !fmap_cons, join_with_cons2, <- !fmap_cons, !app_assoc_str.
    erewrite scan_pairs_next; [|done|done|lia|reflexivity].
    rewrite skip_ws_newline_indent.
    rewrite (proj1 (skip_ws_join_items _ (kv :: kvs) _ ltac:(done))).
    rewrite IH; [done|done|done|lia].
Qed.

Lemma dict_of_pairs_snoc l k v :
  dict_of_pairs (l ++ [(k, v)]) = <[k := v]> (dict_of_pairs l).
Proof. unfold dict_of_pairs. by rewrite foldl_app. Qed.

Lemma dict_of_pairs_list_to_map (l : list (list N * list (list N))) :
  NoDup l.*1 → dict_of_pairs l = list_to_map l.
Proof.
  induction l as [|[k v] l IH] using rev_ind; [done|].
  rewrite fmap_app, NoDup_app. intros (Hnd & Hk & _).
  rewrite dict_of_pairs_snoc, IH by done.
  symmetry. apply list_to_map_snoc. intros Hin. by apply (Hk k); [|left].
Qed.

Lemma dict_of_pairs_map_to_list (db : gmap (list N) (list (list N))) :
  dict_of_pairs (map_to_list db) = db.
Proof.
  rewrite dict_of_pairs_list_to_map by apply NoDup_fst_map_to_list.
  apply list_to_map_to_list.
Qed.

Lemma join_with_length sep items :
  sum_list (String.length <$> items) ≤ String.length (Json.join_with sep items).
Proof.
  induction items as [|x items IH]; [done|].
  destruct items as [|y items]; [simpl; lia|].
  change (Json.join_with sep (x :: y :: items))
    with (x +:+ sep +:+ Json.join_with sep (y :: items)).
  rewrite !length_app_str. rewrite fmap_cons. simpl sum_list. simpl sum_list in IH. lia.
Qed.

Lemma encode_list_length l : length l ≤ String.length (encode_list l).
Proof.
  destruct l as [|x l]; [simpl; lia|]. unfold encode_list.
  rewrite !length_app_str.
  pose proof (join_with_length ("," +:+ Json.newline_indent 2)
                (encode_string <$> x :: l)) as H.
  assert (length (x :: l) ≤ sum_list (String.length <$> (encode_string <$> x :: l))).
  { clear. induction (x :: l) as [|y l' IH]; [done|].
    rewrite !fmap_cons. simpl. lia. }
  lia.
Qed.

Lemma encode_items_weight kvs :
  pairs_weight kvs ≤ sum_list (String.length <$> (encode_item <$> kvs)).
Proof.
  unfold pairs_weight. induction kvs as [|[k v] kvs IH]; [done|].
  rewrite !fmap_cons. simpl sum_list.
  rewrite !length_app_str. pose proof (encode_list_length v). lia.
Qed.

Lemma scan_object_pairs fuel t u :
  skip_ws t = String Json.dquote u →
  scan_object fuel t = scan_pairs fuel (String Json.dquote u).
Proof. intros H. unfold scan_object. by rewrite H. Qed.

(** Decoding the text of [json.dump] gives back the dictionary. *)
Lemma loads_dumps (db : gmap (list N) (list (list N))) :
  is_store db → pair_free_store db → loads (dumps db) = Some db.
Proof.
  intros Hdb Hpf.
  assert (Hall : Forall (λ kv, plain_str kv.1 ∧ Forall plain_str kv.2)
                   (map_to_list db)).
  { apply Forall_forall. intros [k v] Hkv%elem_of_map_to_list.
    destruct (Hdb k v Hkv) as [Hk Hv]. destruct (Hpf k v Hkv) as [Hk' Hv'].
    split; [done|]. simpl. apply Forall_forall. intros x Hx.
    split; [by eapply Forall_forall in Hv|by eapply Forall_forall in Hv']. }
  unfold dumps. destruct (map_to_list db) as [|kv kvs] eqn:E.
  - apply map_to_list_empty_iff in E as ->. reflexivity.
  - set (body := Json.join_with ("," +:+ Json.newline_indent 1) (encode_item <$> kv :: kvs)).
    set (doc := "{" +:+ Json.newline_indent 1 +:+ body +:+ Json.newline_indent 0 +:+ "}").
    assert (Hdoc : doc = String "{" (Json.newline_indent 1 +:+ body
                                     +:+ Json.newline_indent 0 +:+ String "}" "")).
    { reflexivity. }
    assert (Hfuel : pairs_weight (kv :: kvs) ≤ String.length doc).
    { rewrite Hdoc. simpl String.length. rewrite !length_app_str.
      pose proof (encode_items_weight (kv :: kvs)).
      pose proof (join_with_length ("," +:+ Json.newline_indent 1)
                    (encode_item <$> kv :: kvs)). fold body in H0. lia. }
    unfold loads. generalize dependent (String.length doc). intros fuel Hfuel.
    rewrite Hdoc.
    change (skip_ws (String "{" ?t)) with (String "{" t). cbv iota beta.
    destruct (skip_ws_join_items ("," +:+ Json.newline_indent 1) (kv :: kvs)
                (Json.newline_indent 0 +:+ String "}" "")) as [Hs [u Hu]]; [done|].
    fold body in Hs, Hu.
    rewrite (scan_object_pairs fuel _ u)
      by (by rewrite skip_ws_newline_indent, Hs, Hu).
    rewrite <- Hu. unfold body. rewrite scan_pairs_encoded by done.
    simpl. rewrite <- E. by rewrite dict_of_pairs_map_to_list.
Qed.

Lemma strip_dumps_not_blank (db : gmap (list N) (list (list N))) :
  PyStr.strip (dumps db) ≠ "".
Proof.
  assert (H : ∀ t, PyStr.strip (String "{" t) ≠ "").
  { intros t. unfold PyStr.strip. simpl. by destruct (PyStr.rstrip t). }
  unfold dumps. destruct (map_to_list db); apply H.
Qed.


(** The strings of the manager's model are among those read back as
    written, and the two encoders agree on them. *)
Lemma codes_is_str s : is_str (codes s).
Proof.
  induction s as [|c s IH]; [constructor|]. constructor; [|done].
  pose proof (N_ascii_bounded c). lia.
Qed.

Lemma codes_pair_free s : pair_free (codes s).
Proof.
  induction s as [|c s IH]; [done|]. split; [|done].
  destruct s as [|b s]; [done|]. intros [Hc _]. revert Hc.
  unfold is_high. pose proof (N_ascii_bounded c).
  rewrite (proj2 (N.leb_gt _ _)) by lia. done.
Qed.

Lemma escape_char_codes c :
  escape_char (N_of_ascii c) = Json.escape_char c.
Proof. destruct c as [[] [] [] [] [] [] [] []]; reflexivity. Qed.

Lemma escape_codes s : escape (codes s) = Json.escape s.
Proof.
  induction s as [|c s IH]; [done|]. simpl. by rewrite escape_char_codes, IH.
Qed.

Lemma codes_inj : Inj (=) (=) codes.
Proof.
  intros s. induction s as [|c s IH]; intros [|c' s'] H; try done.
  simpl in H. injection H as Hc Hs.
  rewrite <- (ascii_N_embedding c), Hc, ascii_N_embedding. f_equal. by apply IH.
Qed.

Lemma of_store_plain (db : gmap string (list string)) :
  is_store (Unicode.of_store db) ∧ pair_free_store (Unicode.of_store db).
Proof.
  pose proof codes_inj as Hinj.
  split; intros k v [p [-> Hp]]%lookup_kmap_Some; [|apply _|..|apply _].
  all: apply lookup_fmap_Some in Hp as (l & <- & _).
  - split; [apply codes_is_str|].
    apply Forall_fmap, Forall_forall. intros x _. apply codes_is_str.
  - split; [apply codes_pair_free|].
    apply Forall_fmap, Forall_forall. intros x _. apply codes_pair_free.
Qed.

End PyJsonRoundTrip.

(** ** Writing, then loading *)

Lemma attempt_clean win32 doc d :
  (attempt win32 doc clean d).1 = Replaced.
Proof.
  unfold attempt. simpl. by destruct (bool_decide _ && win32).
Qed.

Lemma retry_with_clean_attempt win32 envs doc d :
  (∃ i, i < 3 ∧ envs i = clean) →
  let r := retry_loop win32 doc envs 3 3 0 1%Z d [] [] in
  ended r = Returns ∧ last (log r) = Some Replaced
  ∧ db_file (files r) = Some doc.
Proof.
  intros (i & Hi & Hclean). simpl.
  destruct (attempt win32 _ (envs 0) d) as [e1 d1] eqn:E1.
  destruct e1; simpl;
    [split; [done|]; split; [done|]; by apply attempt_replaced in E1|..].
  all: destruct (attempt win32 _ (envs 1) d1) as [e2 d2] eqn:E2.
  all: destruct e2; simpl;
    [split; [done|]; split; [done|]; by apply attempt_replaced in E2|..].
  all: destruct (attempt win32 _ (envs 2) d2) as [e3 d3] eqn:E3.
  all: destruct e3; simpl;
    [split; [done|]; split; [done|]; by apply attempt_replaced in E3|..].
  all: exfalso.
  all: assert (i = 0 ∨ i = 1 ∨ i = 2) as [->|[->| ->]] by lia.
  all: rewrite Hclean in *.
  all: match goal with
       | H : attempt ?w ?doc clean ?d0 = (?e, _) |- _ =>
           pose proof (attempt_clean w doc d0) as Hc; rewrite H in Hc;
           discriminate Hc
       end.
Qed.


(** C2, as the code has it.  Take a dictionary of Python strings in
    which no string has a high surrogate directly before a low one.
    When one of the three attempts of [_save_db_with_retry] goes
    through, the call returns with the dictionary's document in
    [file_tags.json], and a [_load_db] that can read the file returns
    that same dictionary and leaves the files alone, whatever
    [json.loads] does on texts that are not such documents. *)
Theorem save_then_load {F : Type} (win32 : bool) (envs : nat → attempt_env)
  (db : Unicode.store) (d : disk) (lenv : load_env)
  (other : string → (Unicode.store + F) + exn) :
  PyJson.is_store db →
  PyJson.pair_free_store db →
  (∃ i, i < 3 ∧ envs i = clean) →
  open_raises lenv = None →
  let r := Unicode._save_db_with_retry win32 envs db d in
  ended r = Returns
  ∧ db_file (files r) = Some (PyJson.dumps db)
  ∧ _load_db (Unicode.json_loads other) (inl ∅) lenv (files r)
    = (inl (inl db), files r).
Proof.
  intros Hdb Hpf Hclean Hopen r.
  destruct (retry_with_clean_attempt win32 envs (PyJson.dumps db) d Hclean)
    as (Hr & _ & Hf).
  fold (Unicode._save_db_with_retry win32 envs db d) in Hr, Hf.
  fold r in Hr, Hf. split; [done|]. split; [done|].
  unfold _load_db. rewrite Hf, Hopen.
  rewrite decide_False by apply strip_dumps_not_blank.
  unfold Unicode.json_loads. by rewrite loads_dumps.
Qed.

Lemma is_store_singleton k v :
  PyJson.is_str k → Forall PyJson.is_str v → PyJson.is_store {[ k := v ]}.
Proof. intros Hk Hv. by apply map_Forall_singleton. Qed.

Lemma save_then_load_witness :
  let r := Unicode._save_db_with_retry false (λ _, clean)
             Unicode.example_store (Disk None None []) in
  files r = Disk (Some (PyJson.dumps Unicode.example_store)) None []
  ∧ _load_db (Unicode.json_loads (λ _, inr OtherError)) (inl ∅)
      (LoadEnv None false) (files r)
    = (inl (inl Unicode.example_store) : (Unicode.store + unit) + exn,
       files r).
Proof.
  split; [reflexivity|].
  apply (save_then_load false (λ _, clean) Unicode.example_store
           (Disk None None []) (LoadEnv None false)).
  - apply is_store_singleton; repeat constructor.
  - apply map_Forall_singleton. simpl. split; [tauto|].
    repeat constructor; simpl; tauto.
  - exists 0. split; [lia|reflexivity].
  - reflexivity.
Defined.

(** C2 as stated fails.  A tag made of the two code points [U+D83D] and
    [U+DE00] is a Python string; the encoder writes it as two [\u]
    escapes, and the decoder reads those as the one code point
    [U+1F600].  The dictionary loaded is not the one saved. *)
Lemma surrogates_joined_on_load :
  let r := Unicode._save_db_with_retry false (λ _, clean)
             Unicode.two_surrogates (Disk None None []) in
  PyJson.is_store Unicode.two_surrogates
  ∧ ended r = Returns
  ∧ _load_db (Unicode.json_loads (λ _, inr OtherError)) (inl ∅)
      (LoadEnv None false) (files r)
    = (inl (inl Unicode.one_emoji) : (Unicode.store + unit) + exn, files r)
  ∧ Unicode.one_emoji ≠ Unicode.two_surrogates.
Proof.
  split; [apply is_store_singleton; repeat constructor|].
  split; [reflexivity|]. split; [vm_compute; reflexivity|].
  intros H. apply (f_equal (λ m : Unicode.store, m !! [97%N])) in H.
  vm_compute in H. discriminate H.
Qed.

(** A second attempt that goes through, after a first that fails. *)
Example save_on_second_attempt :
  let envs := λ i, if decide (i = 0) then rename_always_fails 0 else clean in
  let r := _save_db_with_retry false envs example_store (Disk None None []) in
  log r = [Raised; Replaced] ∧ sleeps r = [1%Z] ∧ ended r = Returns
  ∧ db_file (files r) = Some (Json.dumps example_store).
Proof. repeat split. Qed.

(** ** Coalescing *)

Section Coalescing.
Variable win32 : bool.
Variable L : Z.
Variable W0 : list (gmap string (list string)).
Variable D0 : gmap string (list string).





Lemma signals_cons e evs : signals (e :: evs) = signals [e] + signals evs.
Proof. by destruct e. Qed.


End Coalescing.




(** The run of the witness: one write, of the dictionary with the three
    additions. *)
Example burst_run :
  writes <$> run false (settled_at 5000 ∅) burst_events
  = Some [<["a.txt" := ["x"; "z"]]> (<["b.txt" := ["y"]]> ∅)].
Proof. vm_compute. reflexivity. Qed.

(** [add_tags] is the update and the signal of [add_tags_events]. *)
Lemma add_tags_as_events win32 t p T s :
  (now s ≤ t)%Z →
  mgr <$> run win32 s (add_tags_events t p T) = Some (add_tags p T (mgr s)).
Proof.
  intros Ht. unfold add_tags_events, run, step. simpl.
  rewrite decide_True by done. simpl. by rewrite decide_True by lia.
Qed.

(** * Further properties of the code *)

(** ** Removing, adding and searching together *)

Section ManagerOps.
Implicit Types (db : gmap string (list string)) (l : list string).

Lemma list_remove_perm t l : t ∈ l → l ≡ₚ t :: list_remove t l.
Proof.
  induction l as [|y l IH]; simpl; [by intros ?%elem_of_nil|].
  case_decide as E; [by subst|].
  intros [?|Hin]%elem_of_cons; [done|].
  rewrite (IH Hin) at 1. apply Permutation_swap.
Qed.

Lemma list_remove_snoc_fresh t l : t ∉ l → list_remove t (l ++ [t]) = l.
Proof.
  induction l as [|y l IH]; simpl; intros Hnin.
  - by rewrite decide_True.
  - apply not_elem_of_cons in Hnin as [Hne Hnin].
    rewrite decide_False by done. by rewrite IH.
Qed.

Lemma list_remove_gone t l : NoDup l → t ∉ list_remove t l.
Proof.
  induction l as [|y l IH]; simpl; [intros _; apply not_elem_of_nil|].
  intros [Hy Hnd]%NoDup_cons. case_decide as E; [by subst|].
  apply not_elem_of_cons. split; [done|auto].
Qed.

Lemma remove_tag_lookup p t m l :
  tags_db m !! PyPath.str_Path p = Some l → t ∈ l →
  remove_tag p t m
  = queue_save
      (with_db (match list_remove t l with
                | [] => delete (PyPath.str_Path p) (tags_db m)
                | l' => <[PyPath.str_Path p := l']> (tags_db m)
                end) m).
Proof.
  intros Hl Hin. unfold remove_tag. rewrite Hl, decide_True by done.
  destruct (list_remove t l); [|done]. by rewrite delete_insert_eq.
Qed.

Lemma get_tags_present p t m :
  t ∈ get_tags p m → tags_db m !! PyPath.str_Path p = Some (get_tags p m).
Proof.
  unfold get_tags. destruct (tags_db m !! PyPath.str_Path p); simpl; [done|].
  by intros ?%elem_of_nil.
Qed.

End ManagerOps.

(** X1. [remove_tag(p, t)] with [t] in the list of [p] removes the first
    occurrence of [t] and nothing else: the list keeps its other tags in
    their order, [t] is gone when the list had it once, the lists of the
    other paths are as before, and one save is signalled. *)
Theorem remove_tag_present (p t : string) (m : manager) :
  t ∈ get_tags p m →
  let m' := remove_tag p t m in
  get_tags p m' = list_remove t (get_tags p m)
  ∧ get_tags p m ≡ₚ t :: get_tags p m'
  ∧ (NoDup (get_tags p m) → t ∉ get_tags p m')
  ∧ pending_changes m' = true ∧ save_queue m' = S (save_queue m)
  ∧ (∀ k, k ≠ PyPath.str_Path p → tags_db m' !! k = tags_db m !! k).
Proof.
  intros Hin m'. pose proof (get_tags_present p t m Hin) as Hl.
  assert (Hget : get_tags p m' = list_remove t (get_tags p m)).
  { subst m'. rewrite (remove_tag_lookup p t m _ Hl Hin).
    unfold get_tags at 1. simpl.
    destruct (list_remove t (get_tags p m)) as [|x l'].
    - by rewrite lookup_delete_eq.
    - by rewrite lookup_insert_eq. }
  split; [done|]. rewrite Hget.
  split; [by apply list_remove_perm|].
  split; [apply list_remove_gone|].
  subst m'. rewrite (remove_tag_lookup p t m _ Hl Hin). simpl.
  split; [done|]. split; [done|]. intros k Hk.
  destruct (list_remove t (get_tags p m)).
  - by rewrite lookup_delete_ne.
  - by rewrite lookup_insert_ne.
Qed.

Lemma remove_tag_present_witness :
  let m := add_tags "a.txt" ["red"; "blue"] (init_manager ∅) in
  get_tags "a.txt" (remove_tag "a.txt" "red" m) = ["blue"].
Proof.
  destruct (remove_tag_present "a.txt" "red"
              (add_tags "a.txt" ["red"; "blue"] (init_manager ∅)))
    as [H _]; [by apply (bool_decide_unpack _)|].
  simpl. rewrite H. reflexivity.
Defined.

(** X2. [add_tags(p, T)] touches the entry of [str(Path(p))] only, keeps
    the tags that entry had at the front of its list in their order, and
    signals exactly one save whatever [T] holds, leaving [_last_save]
    alone. *)
Theorem add_tags_frame (p : string) (T : list string) (m : manager) :
  let m' := add_tags p T m in
  (∀ k, k ≠ PyPath.str_Path p → tags_db m' !! k = tags_db m !! k)
  ∧ get_tags p m `prefix_of` get_tags p m'
  ∧ pending_changes m' = true ∧ save_queue m' = S (save_queue m)
  ∧ last_save m' = last_save m.
Proof.
  intros m'. split.
  { intros k Hk. subst m'. unfold add_tags. simpl.
    by apply tag_file_lookup_ne. }
  split; [|done].
  subst m'. rewrite get_tags_add_tags.
  destruct (append_tags_spec T (get_tags p m)) as (news & -> & _).
  by exists news.
Qed.

(** X3. Adding one new tag and removing it again gives back the
    dictionary: for a tag whose normal form is not empty and not yet in
    the list of [p], and an entry of [p] that is absent or not empty. *)
Theorem add_then_remove_restores (p t : string) (m : manager) :
  PyStr.normalize t ≠ "" →
  PyStr.normalize t ∉ get_tags p m →
  tags_db m !! PyPath.str_Path p ≠ Some [] →
  tags_db (remove_tag p (PyStr.normalize t) (add_tags p [t] m)) = tags_db m.
Proof.
  intros Hne Hnin Hnonempty.
  set (key := PyPath.str_Path p). set (t' := PyStr.normalize t).
  assert (Hadd : tags_db (add_tags p [t] m) !! key
                 = Some (get_tags p m ++ [t'])).
  { unfold add_tags. simpl. fold key. rewrite tag_file_lookup. simpl.
    unfold append_tag. fold t'. by rewrite decide_True. }
  rewrite (remove_tag_lookup p t' _ _ Hadd) by (apply elem_of_app; right; left).
  simpl. rewrite list_remove_snoc_fresh by done. fold key.
  apply map_eq. intros k. destruct (decide (k = key)) as [->|Hk].
  - unfold get_tags in *. fold key in Hnin, Hnonempty |- *.
    destruct (tags_db m !! key) as [[|x l]|] eqn:E; simpl.
    + done.
    + by rewrite lookup_insert_eq.
    + by rewrite lookup_delete_eq.
  - assert (tags_db (add_tags p [t] m) !! k = tags_db m !! k) as Hk'.
    { unfold add_tags. simpl. by apply tag_file_lookup_ne. }
    destruct (get_tags p m).
    + by rewrite lookup_delete_ne.
    + by rewrite lookup_insert_ne.
Qed.

Lemma add_then_remove_restores_witness :
  let m := add_tags "a.txt" ["red"] (init_manager ∅) in
  tags_db (remove_tag "a.txt" "blue" (add_tags "a.txt" [" Blue"] m))
  = tags_db m
  ∧ tags_db (remove_tag "b.txt" "blue" (add_tags "b.txt" [" Blue"] m))
    = tags_db m.
Proof.
  split.
  - apply (add_then_remove_restores "a.txt" " Blue"
             (add_tags "a.txt" ["red"] (init_manager ∅)));
      by apply (bool_decide_unpack _).
  - apply (add_then_remove_restores "b.txt" " Blue"
             (add_tags "a.txt" ["red"] (init_manager ∅)));
      by apply (bool_decide_unpack _).
Defined.

Lemma append_tags_member tags l x :
  x ∈ tags → PyStr.normalize x ≠ "" →
  PyStr.normalize x ∈ foldl append_tag l tags.
Proof.
  intros Hx Hne.
  destruct (append_tags_spec tags l) as (news & -> & _ & Hin).
  apply elem_of_app. destruct (decide (PyStr.normalize x ∈ l)); [by left|].
  right. apply Hin. split; [done|]. split; [done|]. by exists x.
Qed.

(** X4. A path is found by a search for the tags just added to it:
    after [add_tags(p, T)] with no blank tag in [T], [search_by_tags(T)]
    lists the key of [p]. *)
Theorem add_then_search (p : string) (T : list string) (m : manager) :
  Forall (λ x, PyStr.normalize x ≠ "") T →
  PyPath.str_Path p ∈ search_by_tags T (add_tags p T m).
Proof.
  intros Hall. apply elem_of_search_by_tags.
  exists (foldl append_tag (get_tags p m) T). split.
  - unfold add_tags. simpl. apply tag_file_lookup.
  - intros q Hq. apply append_tags_member; [done|].
    rewrite Forall_forall in Hall. by apply Hall.
Qed.

Lemma add_then_search_witness :
  "docs/a.txt"
  ∈ search_by_tags ["Work"; " todo"]
      (add_tags "./docs/a.txt" ["Work"; " todo"] (init_manager example_store)).
Proof.
  apply (add_then_search "./docs/a.txt" ["Work"; " todo"]
           (init_manager example_store)).
  by apply (bool_decide_unpack _).
Defined.

Lemma filter_sublist_impl {A} (P Q : A → Prop) `{∀ x, Decision (P x)}
  `{∀ x, Decision (Q x)} (l : list A) :
  (∀ x, P x → Q x) → filter P l `sublist_of` filter Q l.
Proof.
  intros HPQ. induction l as [|x l IH]; [done|].
  rewrite !filter_cons. destruct (decide (P x)) as [HP|HP].
  - rewrite decide_True by auto. by apply sublist_skip.
  - destruct (decide (Q x)); [by apply sublist_cons|done].
Qed.

(** X5. A search depends on its query only through the set of
    normalized tags: a query whose normalized tags include those of
    another finds a sub-list of what the other finds, in the same order;
    so order, repetition, letter case and surrounding blanks of the
    query tags change nothing. *)
Theorem search_by_tags_query_set (Q1 Q2 : list string) (m : manager) :
  (PyStr.normalize <$> Q1 ⊆ PyStr.normalize <$> Q2 →
   search_by_tags Q2 m `sublist_of` search_by_tags Q1 m)
  ∧ (PyStr.normalize <$> Q1 ⊆ PyStr.normalize <$> Q2 →
     PyStr.normalize <$> Q2 ⊆ PyStr.normalize <$> Q1 →
     search_by_tags Q1 m = search_by_tags Q2 m).
Proof.
  assert (Hsub : ∀ A B : list string,
            PyStr.normalize <$> A ⊆ PyStr.normalize <$> B →
            search_by_tags B m `sublist_of` search_by_tags A m).
  { intros A B HAB. unfold search_by_tags. apply fmap_sublist.
    apply filter_sublist_impl. intros kv. unfold has_all.
    rewrite !Forall_forall. intros HB t Ht. by apply HB, HAB. }
  split; [apply Hsub|].
  intros H12 H21. apply (anti_symm sublist); by apply Hsub.
Qed.

Lemma search_by_tags_query_set_witness :
  search_by_tags ["y"; "x"; " X "] (init_manager example_store)
  = search_by_tags ["x"; "y"] (init_manager example_store).
Proof.
  apply (search_by_tags_query_set ["y"; "x"; " X "] ["x"; "y"]
           (init_manager example_store));
    apply (bool_decide_unpack _); by vm_compute.
Defined.

Lemma search_with_empty_tag (Q : list string) (m : manager) :
  tags_inv (tags_db m) →
  (∃ q, q ∈ Q ∧ PyStr.normalize q = "") →
  search_by_tags Q m = [].
Proof.
  intros Hinv (q & Hq & Hblank).
  destruct (search_by_tags Q m) as [|p r] eqn:E; [done|]. exfalso.
  assert (Hp : p ∈ search_by_tags Q m) by (rewrite E; left).
  apply elem_of_search_by_tags in Hp as (tags & Hl & Hall).
  specialize (Hall q Hq). rewrite Hblank in Hall.
  destruct (Hinv p tags Hl) as [_ Hok]. rewrite Forall_forall in Hok.
  by destruct (Hok "" Hall) as [? _].
Qed.

(** X6. On a store whose tags are all non-empty, a query with a tag that
    is empty or blank finds nothing: no list holds the empty string. *)
Theorem search_blank_tag_finds_nothing (Q : list string) (m : manager) :
  tags_inv (tags_db m) →
  (∃ q, q ∈ Q ∧ PyStr.normalize q = "") →
  search_by_tags Q m = [].
Proof. apply search_with_empty_tag. Qed.

Lemma search_blank_tag_finds_nothing_witness :
  search_by_tags ["x"; " "] (init_manager example_store) = [].
Proof.
  apply (search_blank_tag_finds_nothing ["x"; " "] (init_manager example_store)).
  - intros p l Hl. simpl in Hl.
    assert (l ∈ [["x"; "y"]; ["x"]; ["y"; "z"]]) as Hin.
    { unfold example_store in Hl.
      repeat (apply lookup_insert_Some in Hl as [[_ <-]|[_ Hl]];
              [set_solver|]).
      by rewrite lookup_empty in Hl. }
    repeat (apply elem_of_cons in Hin as [->|Hin]);
      [..|by apply elem_of_nil in Hin];
      (split; [by apply (bool_decide_unpack _)|]);
      repeat constructor; by vm_compute.
  - exists " ". split; [by apply (bool_decide_unpack _)|reflexivity].
Defined.

(** X7. Removing the only tag of a path removes the path: its list reads
    as empty and no search, the empty query included, lists it. *)
Theorem remove_last_tag_forgets_path (p t : string) (Q : list string)
  (m : manager) :
  get_tags p m = [t] →
  get_tags p (remove_tag p t m) = []
  ∧ PyPath.str_Path p ∉ search_by_tags Q (remove_tag p t m).
Proof.
  intros Hget.
  assert (Hl : tags_db m !! PyPath.str_Path p = Some [t]).
  { rewrite <- Hget. apply (get_tags_present p t). rewrite Hget. left. }
  assert (Hgone : tags_db (remove_tag p t m) !! PyPath.str_Path p = None).
  { rewrite (remove_tag_lookup p t m [t] Hl) by left. simpl.
    rewrite decide_True by done. apply lookup_delete_eq. }
  split.
  - unfold get_tags. by rewrite Hgone.
  - intros (tags & Hsome & _)%elem_of_search_by_tags. congruence.
Qed.

Lemma remove_last_tag_forgets_path_witness :
  let m := add_tags "a.txt" ["red"] (init_manager ∅) in
  get_tags "a.txt" (remove_tag "a.txt" "red" m) = []
  ∧ "a.txt" ∉ search_by_tags [] (remove_tag "a.txt" "red" m).
Proof.
  apply (remove_last_tag_forgets_path "a.txt" "red" []
           (add_tags "a.txt" ["red"] (init_manager ∅))).
  reflexivity.
Defined.

(** ** The batch applier on the dictionary *)

Lemma tag_files_lookup T (fs : list string) : ∀ db k,
  foldl (tag_file T) db fs !! k
  = if decide (k ∈ fs)
    then Some (foldl append_tag (default [] (db !! k)) T)
    else db !! k.
Proof.
  induction fs as [|f fs IH]; intros db k; cbn [foldl].
  - destruct (decide (k ∈ [])) as [H|]; [by apply elem_of_nil in H|done].
  - rewrite IH. destruct (decide (k = f)) as [->|Hne].
    + rewrite tag_file_lookup.
      rewrite (decide_True (P := f ∈ f :: fs)) by left.
      destruct (decide (f ∈ fs)); [|done].
      exact (f_equal Some (append_tags_twice T (default [] (db !! f)))).
    + rewrite tag_file_lookup_ne by done.
      destruct (decide (k ∈ fs)) as [Hin|Hnin].
      * rewrite decide_True; [done|by right].
      * rewrite decide_False; [done|]. by intros [?|?]%elem_of_cons.
Qed.

(** X8. [add_tags_to_directory] extends the list of every file it walks
    (under the name the walk gave it) by the new normalized tags, as
    [add_tags] does for one path, and leaves every other entry alone; a
    second run with the same tags leaves the dictionary as the first
    left it. *)
Theorem add_tags_to_directory_effect (directory : string) (tree : dirtree)
  (T : list string) (cb : bool) (m : manager) :
  let r := add_tags_to_directory directory tree T cb m in
  (∀ f, f ∈ walk_files directory tree →
     tags_db r.1.2 !! f
     = Some (foldl append_tag (default [] (tags_db m !! f)) T)
     ∧ ∀ x, x ∈ T → PyStr.normalize x ≠ "" →
         ∃ l, tags_db r.1.2 !! f = Some l ∧ PyStr.normalize x ∈ l)
  ∧ (∀ k, k ∉ walk_files directory tree →
       tags_db r.1.2 !! k = tags_db m !! k)
  ∧ tags_db (add_tags_to_directory directory tree T cb r.1.2).1.2
    = tags_db r.1.2.
Proof.
  intros r.
  destruct (add_tags_to_directory_unfold directory tree T cb m)
    as (_ & Hdb & _). fold r in Hdb.
  split; [|split].
  - intros f Hf. rewrite Hdb, tag_files_lookup, decide_True by done.
    split; [done|]. intros x Hx Hne. eexists. split; [done|].
    by apply append_tags_member.
  - intros k Hk. by rewrite Hdb, tag_files_lookup, decide_False.
  - destruct (add_tags_to_directory_unfold directory tree T cb r.1.2)
      as (_ & -> & _).
    apply map_eq. intros k. rewrite tag_files_lookup.
    case_decide as Hk; [|done].
    rewrite Hdb, tag_files_lookup, decide_True by done. simpl.
    by rewrite append_tags_twice.
Qed.

(** X9. With no file under the directory (an empty tree, a tree of empty
    directories, a directory that is not there) [add_tags_to_directory]
    returns 0 and does nothing: no entry, no save signal, no progress
    call. *)
Theorem add_tags_to_directory_no_files (directory : string) (tree : dirtree)
  (T : list string) (cb : bool) (m : manager) :
  walk_files directory tree = [] →
  add_tags_to_directory directory tree T cb m = (0, m, []).
Proof.
  intros Hnone. unfold add_tags_to_directory. rewrite Hnone. reflexivity.
Qed.

Lemma add_tags_to_directory_no_files_witness :
  add_tags_to_directory "d" (Dir [] [("sub", Dir [] [])]) ["t"] true
    (init_manager example_store)
  = (0, init_manager example_store, []).
Proof.
  apply (add_tags_to_directory_no_files "d" (Dir [] [("sub", Dir [] [])])).
  reflexivity.
Defined.

(** ** The window's handlers *)

Section Handlers.

Lemma normalize_strip x : PyStr.normalize (PyStr.strip x) = PyStr.normalize x.
Proof. unfold PyStr.normalize. by rewrite strip_idemp. Qed.

Lemma normalize_nonempty x :
  PyStr.strip x ≠ "" ↔ PyStr.normalize x ≠ "".
Proof.
  unfold PyStr.normalize. split.
  - intros H E. by apply lower_empty_inv in E.
  - intros H E. apply H. by rewrite E.
Qed.

Lemma elem_of_input_tags text x :
  x ∈ input_tags text ↔
  x ≠ "" ∧ ∃ y, y ∈ split_on "," text ∧ x = PyStr.strip y.
Proof.
  unfold input_tags. rewrite list_elem_of_filter, list_elem_of_fmap.
  split; intros [? (y & ? & ?)]; (split; [done|]); by exists y.
Qed.

Lemma input_tags_nonblank text :
  Forall (λ x, PyStr.normalize x ≠ "") (input_tags text).
Proof.
  apply Forall_forall. intros x (Hne & y & _ & ->)%elem_of_input_tags.
  rewrite normalize_strip. by apply normalize_nonempty.
Qed.

Lemma input_tags_some_tag text : input_tags text ≠ [] → some_tag (input_tags text).
Proof.
  pose proof (input_tags_nonblank text) as H.
  destruct (input_tags text) as [|x l]; [done|]. intros _.
  apply Forall_cons in H as [Hx _]. by apply Exists_cons_hd.
Qed.

Lemma add_tags_each_store_inv T (names : list string) directory : ∀ m,
  some_tag T → store_inv (tags_db m) →
  store_inv (tags_db (foldl (λ m filename,
                               add_tags (PyPath.join directory filename) T m)
                        m names)).
Proof.
  induction names as [|n names IH]; intros m Hs Hinv; simpl; [done|].
  apply IH; [done|]. unfold add_tags. simpl. by apply tag_file_store_inv.
Qed.

Lemma split_on_nonempty c s : split_on c s ≠ [].
Proof.
  destruct s as [|a s]; simpl; [done|].
  case_decide; [done|]. by destruct (split_on c s).
Qed.

Lemma search_by_tags_strip Q m :
  search_by_tags (PyStr.strip <$> Q) m = search_by_tags Q m.
Proof.
  unfold search_by_tags. rewrite <- list_fmap_compose.
  replace (PyStr.normalize ∘ PyStr.strip <$> Q) with (PyStr.normalize <$> Q);
    [done|].
  apply list_fmap_ext. intros _ x _. symmetry. apply normalize_strip.
Qed.

End Handlers.

(** X10. Whatever is typed and whatever is selected, [MainWindow.add_tags]
    keeps the store invariant, non-empty lists included: the handler
    passes on only tags that are not blank, and none when there is
    none. *)
Theorem MainWindow_add_tags_keeps_store_inv (current_file : string)
  (kind : selected) (include_subdirs : bool) (text : string) (m : manager) :
  store_inv (tags_db m) →
  store_inv (tags_db (MainWindow_add_tags current_file kind include_subdirs
                        text m)).
Proof.
  intros Hinv. unfold MainWindow_add_tags.
  case_decide; [done|].
  pose proof (input_tags_some_tag text) as Hsome.
  destruct (input_tags text) as [|x T'] eqn:E; [done|].
  specialize (Hsome ltac:(done)).
  destruct kind as [|tree|]; [| |done].
  - unfold add_tags. simpl. by apply tag_file_store_inv.
  - unfold MainWindow_add_tags_directory. destruct include_subdirs.
    + destruct (add_tags_to_directory_unfold current_file tree (x :: T')
                  true m) as (_ & Hdb & _).
      cbn [fst snd]. rewrite Hdb. by apply tag_files_store_inv.
    + destruct tree as [filenames subdirs]. cbn [fst].
      by apply add_tags_each_store_inv.
Qed.

Lemma MainWindow_add_tags_keeps_store_inv_witness :
  let m := MainWindow_add_tags "a.txt" IsFile true " , ," (init_manager ∅) in
  m = init_manager ∅
  ∧ store_inv (tags_db (MainWindow_add_tags "d" (IsDirectory (Dir ["f"] []))
                          false "Red, ,blue" m)).
Proof.
  split; [reflexivity|].
  apply (MainWindow_add_tags_keeps_store_inv "d" (IsDirectory (Dir ["f"] []))
           false "Red, ,blue").
  intros p l Hl. simpl in Hl. by rewrite lookup_empty in Hl.
Defined.

(** X11. What [MainWindow.add_tags] stores for a selected file: after
    the handler the tags of the file are its old tags and the non-empty
    [piece.strip().lower()] of the comma-separated pieces of the input;
    blank pieces add nothing, and an input of blank pieces only changes
    nothing at all, not even the save flag. *)
Theorem MainWindow_add_tags_file (current_file text : string)
  (include_subdirs : bool) (m : manager) :
  current_file ≠ "" →
  let m' := MainWindow_add_tags current_file IsFile include_subdirs text m in
  (∀ t, t ∈ get_tags current_file m' ↔
     t ∈ get_tags current_file m
     ∨ (t ≠ "" ∧ ∃ piece, piece ∈ split_on "," text
                          ∧ t = PyStr.lower (PyStr.strip piece)))
  ∧ (Forall (λ piece, PyStr.strip piece = "") (split_on "," text) → m' = m).
Proof.
  intros Hsel m'. subst m'. unfold MainWindow_add_tags.
  rewrite decide_False by done. split.
  - intros t.
    assert (Hpieces : (t ≠ "" ∧ ∃ piece, piece ∈ split_on "," text
                                  ∧ t = PyStr.lower (PyStr.strip piece))
                      ↔ (t ≠ "" ∧ ∃ x, x ∈ input_tags text
                                  ∧ t = PyStr.normalize x)).
    { split.
      - intros (Hne & y & Hy & ->). split; [done|].
        exists (PyStr.strip y). rewrite normalize_strip. split; [|done].
        apply elem_of_input_tags. split; [|by exists y].
        by apply normalize_nonempty.
      - intros (Hne & x & (_ & y & Hy & ->)%elem_of_input_tags & ->).
        split; [done|]. exists y. by rewrite normalize_strip. }
    rewrite Hpieces. clear Hpieces.
    destruct (input_tags text) as [|x T'] eqn:E.
    + split; [by left|]. intros [?|(_ & x & ?%elem_of_nil & _)]; done.
    + rewrite get_tags_add_tags.
      destruct (append_tags_spec (x :: T') (get_tags current_file m))
        as (news & -> & _ & Hin).
      rewrite elem_of_app, Hin. split.
      * intros [?|(_ & ? & ?)]; [by left|by right].
      * intros [?|[? ?]]; [by left|].
        destruct (decide (t ∈ get_tags current_file m)); [by left|by right].
  - intros Hblank.
    assert (input_tags text = []) as ->; [|done].
    unfold input_tags. induction (split_on "," text) as [|y l IH]; [done|].
    apply Forall_cons in Hblank as [Hy Hl]. rewrite fmap_cons, filter_cons.
    rewrite decide_False by (by intros ?). by apply IH.
Qed.

Lemma MainWindow_add_tags_file_witness :
  get_tags "a.txt"
    (MainWindow_add_tags "a.txt" IsFile true "Red, blue ,,RED"
       (init_manager ∅))
  = ["red"; "blue"]
  ∧ ("blue" ∈ get_tags "a.txt"
       (MainWindow_add_tags "a.txt" IsFile true "Red, blue ,,RED"
          (init_manager ∅))).
Proof.
  split; [reflexivity|].
  apply (MainWindow_add_tags_file "a.txt" "Red, blue ,,RED" true
           (init_manager ∅)); [done|].
  right. split; [done|]. exists " blue ". split; [|reflexivity].
  by apply (bool_decide_unpack _).
Defined.

(** X12. [MainWindow.search_files] searches only when the first
    comma-separated piece of its input is not blank, and then shows what
    [search_by_tags] finds for the pieces as typed.  Any later piece
    that is blank (a doubled or trailing comma) makes the search come
    back empty on a store whose tags are all non-empty. *)
Theorem MainWindow_search_files_result (text : string) (m : manager) :
  (MainWindow_search_files text m = None ↔
     PyStr.strip (hd "" (split_on "," text)) = "")
  ∧ (∀ r, MainWindow_search_files text m = Some r →
       r = search_by_tags (split_on "," text) m)
  ∧ (tags_inv (tags_db m) →
     (∃ piece, piece ∈ split_on "," text ∧ PyStr.strip piece = "") →
     ∀ r, MainWindow_search_files text m = Some r → r = []).
Proof.
  unfold MainWindow_search_files.
  pose proof (split_on_nonempty "," text) as Hne.
  assert (Hres : ∀ r,
            match PyStr.strip <$> split_on "," text with
            | [] => None
            | first :: _ =>
                if decide (first = "") then None
                else Some (search_by_tags
                             (PyStr.strip <$> split_on "," text) m)
            end = Some r →
            r = search_by_tags (split_on "," text) m).
  { intros r. destruct (split_on "," text) as [|y l]; [done|].
    rewrite fmap_cons. case_decide; [done|]. intros [= <-].
    by rewrite <- fmap_cons, search_by_tags_strip. }
  split; [|split; [done|]].
  - destruct (split_on "," text) as [|y l]; [done|].
    rewrite fmap_cons. simpl. by case_decide.
  - intros Hinv (piece & Hin & Hblank) r Hr. rewrite (Hres r Hr).
    apply search_with_empty_tag; [done|]. exists piece. split; [done|].
    unfold PyStr.normalize. by rewrite Hblank.
Qed.

Lemma MainWindow_search_files_result_witness :
  MainWindow_search_files " ,x" (init_manager example_store) = None
  ∧ MainWindow_search_files "X , y" (init_manager example_store) = Some ["a"]
  ∧ MainWindow_search_files "x," (init_manager example_store) = Some [].
Proof.
  split; [|split; [reflexivity|reflexivity]].
  apply (MainWindow_search_files_result " ,x" (init_manager example_store)).
  reflexivity.
Defined.

(** ** What loading and saving do to the files *)

(** X13. What [_load_db] does to the files, whatever the decoder, the
    file and the failures.  Either it leaves them exactly as they are,
    or it renames a [file_tags.json] that is not empty to [.backup] and
    returns the empty dictionary: then [file_tags.json] is gone,
    [.backup] holds what it held, and what [.backup] held before is
    lost.  The temporary files are never touched. *)
Theorem load_leaves_or_renames {V : Type} (loads : string → V + exn)
  (empty : V) (env : load_env) (d : disk) :
  let r := _load_db loads empty env d in
  temp_files r.2 = temp_files d
  ∧ (r.2 = d
     ∨ ∃ content, db_file d = Some content ∧ content ≠ ""
         ∧ backup_rename_fails env = false
         ∧ r.1 = inl empty
         ∧ db_file r.2 = None ∧ backup_file r.2 = Some content).
Proof.
  unfold _load_db. destruct (db_file d) as [content|] eqn:E;
    [|split; [done|by left]].
  destruct (match open_raises env with
            | Some e => inr e
            | None => if decide (PyStr.strip content = "") then inl empty
                      else loads content
            end) as [v|e]; simpl; [split; [done|by left]|].
  destruct (load_catches e); simpl; [|split; [done|by left]].
  destruct (decide (content ≠ "")) as [Hne|]; [|split; [done|by left]].
  destruct (backup_rename_fails env); simpl; [split; [done|by left]|].
  split; [done|]. right. exists content. by rewrite E.
Qed.

(** An earlier backup is overwritten by the rename. *)
Example load_overwrites_backup :
  _load_db (λ _, inr JSONDecodeError : gmap string (list string) + exn) ∅
    (LoadEnv None false) (Disk (Some "{oops") (Some "{old") [])
  = (inl ∅, Disk None (Some "{oops") []).
Proof. reflexivity. Qed.

Section SaveCases.

Lemma attempt_posix doc env d :
  let r := attempt false doc env d in
  backup_file r.2 = backup_file d
  ∧ ((r.1 = Replaced ∧ db_file r.2 = Some doc
      ∧ temp_files r.2 = temp_files d)
     ∨ (r.1 = Raised ∧ db_file r.2 = db_file d)).
Proof.
  unfold attempt. destruct (temp_out env); simpl.
  - rewrite andb_false_r. destruct (rename_ok env); simpl.
    + split; [done|]. by left.
    + split; [done|]. by right.
  - split; [done|]. by right.
  - split; [done|]. by right.
Qed.

Lemma attempt_frame win32 doc env d :
  let r := attempt win32 doc env d in
  backup_file r.2 = backup_file d
  ∧ (temp_files r.2 = temp_files d
     ∨ (r.1 ≠ Replaced ∧ ∃ t, temp_files r.2 = t :: temp_files d)).
Proof.
  unfold attempt. destruct (temp_out env) as [| |n]; simpl.
  - destruct (bool_decide _ && win32);
      [destruct (remove_out env)|]; try destruct (rename_ok env); simpl;
      (split; [done|]); first [by left | right; split; [done|by eexists]].
  - split; [done|]. by left.
  - split; [done|]. right. split; [done|by eexists].
Qed.

End SaveCases.

Lemma save_posix_cases (envs : nat → attempt_env)
  (db : gmap string (list string)) (d : disk) :
  let r := _save_db_with_retry false envs db d in
  (ended r = Returns ∧ last (log r) = Some Replaced
   ∧ db_file (files r) = Some (Json.dumps db))
  ∨ (ended r = Raises ∧ log r = [Raised; Raised; Raised]
     ∧ db_file (files r) = db_file d).
Proof.
  unfold _save_db_with_retry, _save_db_with_retry_from. simpl.
  destruct (attempt_posix (Json.dumps db) (envs 0) d) as [_ H0].
  destruct (attempt false _ (envs 0) d) as [e0 d0]; simpl in H0.
  destruct H0 as [(-> & H0 & _)|[-> H0]]; [by left|]. simpl.
  destruct (attempt_posix (Json.dumps db) (envs 1) d0) as [_ H1].
  destruct (attempt false _ (envs 1) d0) as [e1 d1]; simpl in H1.
  destruct H1 as [(-> & H1 & _)|[-> H1]]; [by left|]. simpl.
  destruct (attempt_posix (Json.dumps db) (envs 2) d1) as [_ H2].
  destruct (attempt false _ (envs 2) d1) as [e2 d2]; simpl in H2.
  destruct H2 as [(-> & H2 & _)|[-> H2]]; [by left|]. simpl.
  right. split; [done|]. split; [done|]. congruence.
Qed.

(** X14. Where the platform is not win32, [_save_db_with_retry] replaces
    the target atomically: either it returns and the target holds the
    whole new document, or it raises after three failed attempts and
    the target is as it was before the call. *)
Theorem save_posix_old_or_new (envs : nat → attempt_env)
  (db : gmap string (list string)) (d : disk) :
  let r := _save_db_with_retry false envs db d in
  (ended r = Returns ∧ last (log r) = Some Replaced
   ∧ db_file (files r) = Some (Json.dumps db))
  ∨ (ended r = Raises ∧ log r = [Raised; Raised; Raised]
     ∧ db_file (files r) = db_file d).
Proof. apply save_posix_cases. Qed.

Ltac save_case :=
  repeat split;
  try done; try congruence; try (simpl; lia);
  try (intros H; simpl in H; first [lia | discriminate H]).

Lemma save_posix_sleeps (envs : nat → attempt_env)
  (db : gmap string (list string)) (d : disk) :
  (foldr Z.add 0 (sleeps (_save_db_with_retry false envs db d)) ≤ 3)%Z.
Proof.
  unfold _save_db_with_retry, _save_db_with_retry_from. simpl.
  destruct (attempt_posix (Json.dumps db) (envs 0) d) as [_ H0].
  destruct (attempt false _ (envs 0) d) as [e0 d0]; simpl in H0.
  destruct H0 as [(-> & _)|[-> _]]; simpl; [lia|].
  destruct (attempt_posix (Json.dumps db) (envs 1) d0) as [_ H1].
  destruct (attempt false _ (envs 1) d0) as [e1 d1]; simpl in H1.
  destruct H1 as [(-> & _)|[-> _]]; simpl; [lia|].
  destruct (attempt_posix (Json.dumps db) (envs 2) d1) as [_ H2].
  destruct (attempt false _ (envs 2) d1) as [e2 d2]; simpl in H2.
  destruct H2 as [(-> & _)|[-> _]]; simpl; lia.
Qed.

Lemma save_frame (win32 : bool) (envs : nat → attempt_env)
  (db : gmap string (list string)) (d : disk) :
  let r := _save_db_with_retry win32 envs db d in
  1 ≤ length (log r) ≤ 3
  ∧ (foldr Z.add 0 (sleeps r) ≤ 7)%Z
  ∧ (foldr Z.add 0%Z (sleeps r) = 7%Z ↔ log r = [Raised; Raised; Denied])
  ∧ backup_file (files r) = backup_file d
  ∧ temp_files d `suffix_of` temp_files (files r)
  ∧ length (temp_files (files r)) ≤ length (temp_files d) + length (log r).
Proof.
  unfold _save_db_with_retry, _save_db_with_retry_from. simpl.
  pose proof (attempt_frame win32 (Json.dumps db) (envs 0) d) as [B0 T0].
  destruct (attempt win32 _ (envs 0) d) as [e0 d0]; simpl in B0, T0.
  assert (S0 : temp_files d `suffix_of` temp_files d0
               ∧ length (temp_files d0) ≤ length (temp_files d) + 1).
  { destruct T0 as [->|(_ & t & ->)]; simpl;
      (split; [|lia]); [done|by apply suffix_cons_r]. }
  destruct S0 as [S0 L0].
  destruct e0; simpl; [save_case|..].
  all: pose proof (attempt_frame win32 (Json.dumps db) (envs 1) d0) as [B1 T1].
  all: destruct (attempt win32 _ (envs 1) d0) as [e1 d1]; simpl in B1, T1.
  all: assert (S1 : temp_files d `suffix_of` temp_files d1
                    ∧ length (temp_files d1) ≤ length (temp_files d) + 2)
         by (destruct T1 as [->|(_ & t & ->)]; simpl;
             (split; [|lia]); [done|by apply suffix_cons_r]).
  all: destruct S1 as [S1 L1].
  all: destruct e1; simpl; [save_case|..].
  all: pose proof (attempt_frame win32 (Json.dumps db) (envs 2) d1) as [B2 T2].
  all: destruct (attempt win32 _ (envs 2) d1) as [e2 d2]; simpl in B2, T2.
  all: assert (S2 : temp_files d `suffix_of` temp_files d2
                    ∧ length (temp_files d2) ≤ length (temp_files d) + 3)
         by (destruct T2 as [->|(_ & t & ->)]; simpl;
             (split; [|lia]); [done|by apply suffix_cons_r]).
  all: destruct S2 as [S2 L2].
  all: destruct e2; simpl; save_case.
Qed.

(** X15. Whatever the failures, [_save_db_with_retry] makes one to three
    attempts and sleeps at most 7 time units in all.  It sleeps 7 only
    when the first two attempts raise and the third is refused by
    [os.remove], after which it returns; without win32 it sleeps at most
    3.  It never touches [.backup], never removes a temporary file that
    was there, and leaves at most one new one per attempt. *)
Theorem save_bounds (win32 : bool) (envs : nat → attempt_env)
  (db : gmap string (list string)) (d : disk) :
  let r := _save_db_with_retry win32 envs db d in
  1 ≤ length (log r) ≤ 3
  ∧ (foldr Z.add 0 (sleeps r) ≤ 7)%Z
  ∧ (foldr Z.add 0%Z (sleeps r) = 7%Z ↔ log r = [Raised; Raised; Denied])
  ∧ (win32 = false → (foldr Z.add 0 (sleeps r) ≤ 3)%Z)
  ∧ backup_file (files r) = backup_file d
  ∧ temp_files d `suffix_of` temp_files (files r)
  ∧ length (temp_files (files r)) ≤ length (temp_files d) + length (log r).
Proof.
  intros r. destruct (save_frame win32 envs db d) as (H1 & H2 & H3 & H4).
  split; [done|]. split; [done|]. split; [done|]. split; [|done].
  intros ->. apply save_posix_sleeps.
Qed.

(** X16. On win32, when [os.remove] refuses the old file with
    [PermissionError] in all three attempts, [_save_db_with_retry]
    returns as if it had saved: no exception, sleeps of 1, 1 and 1, the
    old file in place and three temporary files left.  The worker's
    locked section then lowers the pending flag although the dictionary
    is not on disk. *)
Theorem save_denied_returns (envs : nat → attempt_env)
  (db : gmap string (list string)) (d : disk) (old : string) :
  db_file d = Some old →
  (∀ i, i < 3 → temp_out (envs i) = TempWritten
                ∧ remove_out (envs i) = RemoveDenied) →
  let r := _save_db_with_retry true envs db d in
  ended r = Returns ∧ log r = [Denied; Denied; Denied]
  ∧ sleeps r = [1; 1; 1]%Z
  ∧ db_file (files r) = Some old
  ∧ temp_files (files r)
    = [Json.dumps db; Json.dumps db; Json.dumps db] ++ temp_files d
  ∧ ∀ t s, on_disk s = d → tags_db (mgr s) = db →
      pending_changes (mgr s) = true →
      let s' := locked_section true t envs s in
      pending_changes (mgr s') = false ∧ writes s' = writes s
      ∧ db_file (on_disk s') = Some old.
Proof.
  intros Hold Henv.
  destruct (Henv 0 ltac:(lia)) as [T0 R0].
  destruct (Henv 1 ltac:(lia)) as [T1 R1].
  destruct (Henv 2 ltac:(lia)) as [T2 R2].
  assert (Hr : _save_db_with_retry true envs db d
               = {| ended := Returns;
                    files := {| db_file := Some old;
                                backup_file := backup_file d;
                                temp_files := [Json.dumps db; Json.dumps db;
                                               Json.dumps db] ++ temp_files d |};
                    sleeps := [1; 1; 1]%Z;
                    log := [Denied; Denied; Denied] |}).
  { unfold _save_db_with_retry, _save_db_with_retry_from, retry_loop, attempt.
    rewrite T0, R0, T1, R1, T2, R2, Hold. simpl. reflexivity. }
  intros r. subst r. rewrite Hr. simpl.
  split; [done|]. split; [done|]. split; [done|]. split; [done|].
  split; [done|]. intros t s <- <- Hp. unfold locked_section.
  rewrite Hp, Hr. simpl. split; [done|]. split; [|done].
  apply app_nil_r.
Qed.

Lemma save_denied_returns_witness :
  let r := _save_db_with_retry true remove_always_denied example_store
             (Disk (Some "{}") None []) in
  ended r = Returns ∧ db_file (files r) = Some "{}".
Proof.
  destruct (save_denied_returns remove_always_denied example_store
              (Disk (Some "{}") None []) "{}" eq_refl) as (H1 & _ & _ & H2 & _).
  - intros i _. split; reflexivity.
  - split; [exact H1|exact H2].
Defined.

(** ** The characters of the document *)

Section Plain.
Import Json.








End Plain.


(** ** The worker over whole runs *)

Section Runs.
Variable win32 : bool.

Lemma run_invariant (P : system → Prop) :
  (∀ s e s', P s → step win32 s e = Some s' → P s') →
  ∀ evs s s', P s → run win32 s evs = Some s' → P s'.
Proof.
  intros Hstep. induction evs as [|e evs IH]; intros s s' HP Hrun.
  - by injection Hrun as <-.
  - cbn [run] in Hrun. destruct (step win32 s e) as [s1|] eqn:Es; [|done].
    apply (IH s1 s'); [by apply (Hstep s e)|done].
Qed.

Lemma step_due_after_limit s e s' :
  due_after_limit s → step win32 s e = Some s' → due_after_limit s'.
Proof.
  intros Hinv. unfold step.
  destruct (decide (now s ≤ event_time e)%Z) as [Hnow|]; [|done].
  destruct e as [t f|t|t|t envs]; simpl.
  - intros [= <-]. exact Hinv.
  - intros [= <-]. exact Hinv.
  - destruct (worker s); [|done]. destruct (save_queue (mgr s)); [done|].
    intros [= <-] wake [= <-]. simpl. unfold second.
    destruct (decide (t - last_save (mgr s) < 1000)%Z); lia.
  - destruct (worker s) as [|wake]; [done|].
    destruct (decide (wake ≤ t)%Z); [|done]. intros [= <-] w.
    unfold locked_section. destruct (pending_changes (mgr s)); [|done].
    by destruct (ended _).
Qed.

Lemma locked_section_writes t envs s :
  let s' := locked_section win32 t envs s in
  (writes s' = writes s
   ∧ (last_save (mgr s') = last_save (mgr s) ∨ last_save (mgr s') = t))
  ∨ (writes s' = writes s ++ [tags_db (mgr s)] ∧ last_save (mgr s') = t).
Proof.
  unfold locked_section. destruct (pending_changes (mgr s)); [|by left; auto].
  destruct (ended _); simpl; [|by left; auto].
  case_decide; [by right|]. left. rewrite app_nil_r. auto.
Qed.

Lemma run_counts evs : ∀ s s',
  run win32 s evs = Some s' →
  writes s `prefix_of` writes s'
  ∧ length (writes s') + save_queue (mgr s') + holding s'
    ≤ length (writes s) + save_queue (mgr s) + holding s + signals evs.
Proof.
  induction evs as [|e evs IH]; intros s s' Hrun.
  - injection Hrun as <-. split; [done|]. simpl. lia.
  - cbn [run] in Hrun. destruct (step win32 s e) as [s1|] eqn:Es; [|done].
    destruct (IH s1 s' Hrun) as [Hpre Hle]. clear IH Hrun.
    rewrite signals_cons. revert Es. unfold step.
    destruct (decide (now s ≤ event_time e)%Z) as [Hnow|]; [|done].
    unfold holding in Hle |- *.
    destruct e as [t f|t|t|t envs]; simpl.
    + intros [= <-]. simpl in *. split; [done|lia].
    + intros [= <-]. simpl in *. split; [done|lia].
    + destruct (worker s); [|done].
      destruct (save_queue (mgr s)); [done|].
      intros [= <-]. simpl in *. split; [done|lia].
    + destruct (worker s) as [|wake]; [done|].
      destruct (decide (wake ≤ t)%Z); [|done]. intros [= <-].
      assert (Hq : save_queue (mgr (locked_section win32 t envs s))
                   = save_queue (mgr s)
                   ∧ worker (locked_section win32 t envs s) = Waiting).
      { unfold locked_section.
        destruct (pending_changes (mgr s)); [|done]. by destruct (ended _). }
      destruct Hq as [Hq Hh]. rewrite Hq, Hh in Hle.
      destruct (locked_section_writes t envs s) as [[Hw _]|[Hw _]];
        rewrite Hw in Hpre, Hle.
      * split; [done|]. lia.
      * rewrite length_app in Hle. simpl in Hle. split; [|lia].
        by eapply prefix_app_l.
Qed.

End Runs.

(** X18. The rate limit: in every run that starts with the worker
    waiting, the locked section is never entered less than one second
    after [_last_save]; and since a write sets [_last_save] to its own
    time, two writes are never less than one second apart. *)
Theorem save_rate_limited (win32 : bool) (s0 s s' : system)
  (evs : list event) (t : Z) (envs : nat → attempt_env) :
  worker s0 = Waiting →
  run win32 s0 evs = Some s →
  step win32 s (Save t envs) = Some s' →
  (last_save (mgr s) + second ≤ t)%Z
  ∧ (writes s' ≠ writes s → last_save (mgr s') = t).
Proof.
  intros Hw Hrun Hstep.
  assert (Hinv : due_after_limit s).
  { apply (run_invariant win32 (due_after_limit)
             (step_due_after_limit win32) evs s0 s); [|done].
    intros wake. by rewrite Hw. }
  revert Hstep. unfold step.
  destruct (decide (now s ≤ event_time (Save t envs))%Z); [|done].
  destruct (worker s) as [|wake] eqn:Ew; [done|].
  destruct (decide (wake ≤ t)%Z) as [Hwake|]; [|done]. intros [= <-].
  split; [specialize (Hinv wake Ew); lia|].
  destruct (locked_section_writes win32 t envs s) as [[Hwr _]|[_ Hl]]; done.
Qed.

(** X19. The worker never writes more often than it was signalled: in a
    run that starts with the worker waiting and no token queued, the
    writes made are at most as many as the calls of [queue_save], and no
    earlier write is forgotten. *)
Theorem writes_at_most_signals (win32 : bool) (s0 s : system)
  (evs : list event) :
  worker s0 = Waiting → save_queue (mgr s0) = 0 →
  run win32 s0 evs = Some s →
  writes s0 `prefix_of` writes s
  ∧ length (writes s) ≤ length (writes s0) + signals evs.
Proof.
  intros Hw Hq Hrun. destruct (run_counts win32 evs s0 s Hrun) as [Hpre Hle].
  split; [done|]. unfold holding in Hle. rewrite Hw, Hq in Hle. lia.
Qed.

Lemma save_rate_limited_witness :
  match run false (settled_at 5000 ∅) first_token_events with
  | Some s =>
      match step false s (Save 6000 (λ _, clean)) with
      | Some s' => (last_save (mgr s) + second ≤ 6000)%Z
                   ∧ (writes s' ≠ writes s → last_save (mgr s') = 6000%Z)
      | None => False
      end
  | None => False
  end.
Proof.
  destruct (run false (settled_at 5000 ∅) first_token_events) as [s|] eqn:E;
    [|by vm_compute in E].
  destruct (step false s (Save 6000 (λ _, clean))) as [s'|] eqn:E2.
  - by apply (save_rate_limited false (settled_at 5000 ∅) s s'
                first_token_events 6000 (λ _, clean)).
  - vm_compute in E. injection E as <-. by vm_compute in E2.
Defined.

Lemma writes_at_most_signals_witness :
  match run false (settled_at 5000 ∅) burst_events with
  | Some s => writes (settled_at 5000 ∅) `prefix_of` writes s
              ∧ length (writes s) ≤ 0 + signals burst_events
  | None => False
  end.
Proof.
  destruct (run false (settled_at 5000 ∅) burst_events) as [s|] eqn:E;
    [|by vm_compute in E].
  by apply (writes_at_most_signals false (settled_at 5000 ∅) s burst_events).
Defined.

(** X21. Where the platform is not win32, the locked section of the
    worker lowers the pending flag only with the dictionary on disk: run
    with changes pending, it either writes the dictionary, lowers the
    flag and notes the time, or, the write having raised, leaves flag,
    [_last_save] and file as they were, so that the next token tries
    again.  Either way the dictionary and the queue are untouched and
    the worker goes back to waiting. *)
Theorem flag_lowered_only_when_saved (t : Z) (envs : nat → attempt_env)
  (s : system) :
  pending_changes (mgr s) = true →
  let s' := locked_section false t envs s in
  ((pending_changes (mgr s') = false
    ∧ db_file (on_disk s') = Some (Json.dumps (tags_db (mgr s)))
    ∧ last_save (mgr s') = t
    ∧ writes s' = writes s ++ [tags_db (mgr s)])
   ∨ (pending_changes (mgr s') = true
      ∧ db_file (on_disk s') = db_file (on_disk s)
      ∧ last_save (mgr s') = last_save (mgr s)
      ∧ writes s' = writes s))
  ∧ tags_db (mgr s') = tags_db (mgr s)
  ∧ save_queue (mgr s') = save_queue (mgr s)
  ∧ worker s' = Waiting.
Proof.
  intros Hp. unfold locked_section. rewrite Hp.
  destruct (save_posix_cases envs (tags_db (mgr s)) (on_disk s))
    as [(-> & Hlast & Hf)|(-> & _ & Hf)]; simpl.
  - rewrite decide_True by done. split; [by left|done].
  - split; [by right|done].
Qed.

Lemma flag_lowered_only_when_saved_witness :
  let s := {| mgr := queue_save (init_manager example_store);
              worker := Dequeued 0; on_disk := Disk None None [];
              writes := []; now := 0 |} in
  pending_changes (mgr (locked_section false 7 rename_always_fails s)) = true
  ∧ pending_changes (mgr (locked_section false 7 (λ _, clean) s)) = false.
Proof.
  split.
  - destruct (flag_lowered_only_when_saved 7 rename_always_fails
                {| mgr := queue_save (init_manager example_store);
                   worker := Dequeued 0; on_disk := Disk None None [];
                   writes := []; now := 0 |} eq_refl)
      as [[(_ & H & _)|(H & _)] _]; [by vm_compute in H|exact H].
  - destruct (flag_lowered_only_when_saved 7 (λ _, clean)
                {| mgr := queue_save (init_manager example_store);
                   worker := Dequeued 0; on_disk := Disk None None [];
                   writes := []; now := 0 |} eq_refl)
      as [[(H & _)|(_ & H & _)] _]; [exact H|by vm_compute in H].
Defined.

(** ** The keys of walked files *)

Section WalkedKeys.
Import PyPath.

Lemma str_Path_decompose p :
  ∃ root parts,
    root ∈ [""; "/"; "//"] ∧ Forall kept parts
    ∧ Forall (λ x, has_sep x = false) parts
    ∧ str_Path p = if decide (root +:+ join_sep parts = "") then "."
                   else root +:+ join_sep parts.
Proof.
  pose proof (splitroot_root p) as Hroot.
  destruct (splitroot p) as [root rel] eqn:Esr. simpl in Hroot.
  exists root, (filter kept (split_sep rel)).
  split; [done|]. split.
  { apply Forall_forall. by intros x [? _]%list_elem_of_filter. }
  split.
  { apply Forall_forall. intros x [_ Hx]%list_elem_of_filter.
    pose proof (split_sep_has_sep rel) as H. rewrite Forall_forall in H. auto. }
  unfold str_Path. by rewrite Esr.
Qed.

Lemma str_Path_canonical root parts :
  root ∈ [""; "/"; "//"] → Forall kept parts →
  Forall (λ x, has_sep x = false) parts →
  root +:+ join_sep parts ≠ "" →
  str_Path (root +:+ join_sep parts) = root +:+ join_sep parts.
Proof.
  intros Hroot Hk Hs Hne. unfold str_Path.
  rewrite splitroot_join by done.
  destruct parts as [|x parts'] eqn:Ep.
  - simpl. by rewrite decide_False.
  - rewrite split_join_sep by done.
    assert (filter kept (x :: parts') = x :: parts') as ->.
    { clear -Hk. induction Hk as [|y l Hy Hl IH]; [done|].
      by rewrite filter_cons, decide_True, IH. }
    by rewrite decide_False.
Qed.

Lemma endswith_sep_app s t : t ≠ "" → endswith_sep (s +:+ t) = endswith_sep t.
Proof.
  intros Ht. induction s as [|c s IH]; [done|].
  rewrite app_cons. simpl. rewrite IH.
  destruct (s +:+ t) eqn:E; [|done].
  destruct s; [simpl in E; by subst|done].
Qed.

Lemma endswith_sep_plain x : has_sep x = false → endswith_sep x = false.
Proof.
  induction x as [|c x IH]; [done|]. simpl.
  intros [Hc Hx]%orb_false_elim. destruct x; [done|auto].
Qed.

Lemma join_sep_nonempty parts :
  parts ≠ [] → Forall kept parts → join_sep parts ≠ "".
Proof.
  destruct parts as [|x parts]; [done|]. intros _ [[Hx _] _]%Forall_cons.
  destruct parts; simpl; [done|]. by destruct x.
Qed.

Lemma endswith_sep_join parts :
  parts ≠ [] → Forall kept parts → Forall (λ x, has_sep x = false) parts →
  endswith_sep (join_sep parts) = false.
Proof.
  induction parts as [|x parts IH]; [done|].
  intros _ [Hkx Hk]%Forall_cons [Hsx Hs]%Forall_cons.
  destruct parts as [|y parts]; [by apply endswith_sep_plain|].
  change (join_sep (x :: y :: parts))
    with (x +:+ String sep (join_sep (y :: parts))).
  rewrite endswith_sep_app by done.
  pose proof (join_sep_nonempty (y :: parts) ltac:(done) Hk) as Hne.
  specialize (IH ltac:(done) Hk Hs).
  destruct (join_sep (y :: parts)) as [|c r]; [done|]. exact IH.
Qed.

Lemma join_sep_snoc parts n :
  parts ≠ [] → join_sep (parts ++ [n]) = join_sep parts +:+ String sep n.
Proof.
  induction parts as [|x parts IH]; [done|]. intros _.
  destruct parts as [|y parts]; [done|].
  change (join_sep ((x :: y :: parts) ++ [n]))
    with (x +:+ String sep (join_sep ((y :: parts) ++ [n]))).
  rewrite IH by done.
  change (join_sep (x :: y :: parts))
    with (x +:+ String sep (join_sep (y :: parts))).
  by rewrite !app_assoc_str.
Qed.

Lemma has_sep_app s t : has_sep (s +:+ t) = has_sep s || has_sep t.
Proof.
  induction s as [|c s IH]; [done|]. rewrite app_cons. simpl.
  by rewrite IH, orb_assoc.
Qed.

Lemma rooted_not_dot root parts :
  root ∈ [""; "/"; "//"] → Forall kept parts →
  Forall (λ x, has_sep x = false) parts →
  root +:+ join_sep parts ≠ ".".
Proof.
  intros Hroot Hk Hs.
  repeat (apply elem_of_cons in Hroot as [->|Hroot]);
    [|done|done|by apply elem_of_nil in Hroot].
  rewrite app_nil_l_str. destruct parts as [|x [|y parts]]; [done|..].
  - apply Forall_cons in Hk as [[_ Hx] _]. done.
  - change (join_sep (x :: y :: parts))
      with (x +:+ String sep (join_sep (y :: parts))).
    intros E. apply (f_equal has_sep) in E. rewrite has_sep_app in E.
    simpl in E. by rewrite orb_true_r in E.
Qed.

(** Joining a name to a normal directory gives a path in normal form. *)
Lemma join_normal d n :
  normal_dir d → plain_name n → normal_dir (join d n).
Proof.
  intros [Hd Hdot] [Hkn Hsn].
  destruct (str_Path_decompose d) as (root & parts & Hroot & Hk & Hs & E).
  rewrite Hd in E. case_decide as He; [done|].
  assert (Hn0 : startswith_sep n = false).
  { destruct n as [|c n]; [done|]. simpl in *.
    by apply orb_false_elim in Hsn as [? _]. }
  assert (Hform : ∃ parts', Forall kept parts'
                    ∧ Forall (λ x, has_sep x = false) parts'
                    ∧ parts' ≠ []
                    ∧ join d n = root +:+ join_sep parts').
  { unfold join. rewrite Hn0, bool_decide_eq_false_2 by (by rewrite E).
    simpl. destruct parts as [|x parts].
    - exists [n]. split; [by constructor|]. split; [by constructor|].
      split; [done|]. rewrite E.
      repeat (apply elem_of_cons in Hroot as [->|Hroot]);
        [by destruct He|reflexivity|reflexivity|by apply elem_of_nil in Hroot].
    - exists ((x :: parts) ++ [n]).
      split; [apply Forall_app; split; [done|by constructor]|].
      split; [apply Forall_app; split; [done|by constructor]|].
      split; [done|].
      assert (endswith_sep d = false) as ->.
      { rewrite E, endswith_sep_app by (by apply join_sep_nonempty).
        by apply endswith_sep_join. }
      rewrite join_sep_snoc by done. rewrite E. by rewrite app_assoc_str. }
  destruct Hform as (parts' & Hk' & Hs' & Hne' & ->).
  split.
  - apply str_Path_canonical; try done.
    pose proof (join_sep_nonempty parts' Hne' Hk') as H.
    intros E'. apply H. destruct root; [done|discriminate E'].
  - by apply rooted_not_dot.
Qed.

Lemma dirtree_induction (P : dirtree → Prop) :
  (∀ filenames subdirs,
     Forall (λ nd, P nd.2) subdirs → P (Dir filenames subdirs)) →
  ∀ t, P t.
Proof.
  intros H. fix IH 1. intros [filenames subdirs]. apply H.
  induction subdirs as [|[n t] ds IHds]; constructor; [apply IH|apply IHds].
Qed.

Lemma walk_files_normal t : ∀ root,
  normal_dir root → plain_tree t →
  Forall (λ f, str_Path f = f) (walk_files root t).
Proof.
  induction t as [filenames subdirs IH] using dirtree_induction.
  intros root Hroot [Hfiles Hsubs]. simpl. apply Forall_app. split.
  - apply Forall_forall. intros f (n & -> & Hn)%list_elem_of_fmap.
    rewrite Forall_forall in Hfiles. by apply join_normal; [|apply Hfiles].
  - induction subdirs as [|[name sub] ds IHds]; [constructor|].
    apply Forall_cons in IH as [IHsub IHrest].
    destruct Hsubs as (Hname & Hsub & Hds).
    apply Forall_app. split.
    + apply IHsub; [by apply join_normal|done].
    + by apply IHds.
Qed.

End WalkedKeys.

(** X22. The batch applier stores files under the names of the walk,
    without [str(Path(...))].  When the directory is given in normal
    form (and is not ["."]), those names are in normal form, so that
    [get_tags] on a walked file finds every non-blank tag of the batch;
    given as ["."], the files are stored under ["./name"], where
    [get_tags] does not look. *)
Theorem walked_files_found (directory : string) (tree : dirtree)
  (T : list string) (cb : bool) (m : manager) :
  normal_dir directory → plain_tree tree →
  ∀ f x, f ∈ walk_files directory tree → x ∈ T → PyStr.normalize x ≠ "" →
    PyStr.normalize x
    ∈ get_tags f (add_tags_to_directory directory tree T cb m).1.2.
Proof.
  intros Hd Ht f x Hf Hx Hne.
  pose proof (walk_files_normal tree directory Hd Ht) as Hnorm.
  rewrite Forall_forall in Hnorm. unfold get_tags. rewrite (Hnorm f Hf).
  destruct (add_tags_to_directory_unfold directory tree T cb m)
    as (_ & -> & _).
  rewrite tag_files_lookup, decide_True by done. simpl.
  by apply append_tags_member.
Qed.

Lemma walked_files_found_witness :
  let tree := Dir ["a.txt"] [("sub", Dir ["b.txt"] [])] in
  "t" ∈ get_tags "/home/u/docs/sub/b.txt"
          (add_tags_to_directory "/home/u/docs" tree [" T"] false
             (init_manager ∅)).1.2
  ∧ get_tags "./a.txt"
      (add_tags_to_directory "." tree [" T"] false (init_manager ∅)).1.2 = []
  ∧ tags_db (add_tags_to_directory "." tree [" T"] false
               (init_manager ∅)).1.2 !! "./a.txt" = Some ["t"].
Proof.
  split; [|split; reflexivity].
  apply (walked_files_found "/home/u/docs"
           (Dir ["a.txt"] [("sub", Dir ["b.txt"] [])]) [" T"] false
           (init_manager ∅) ltac:(by split)
           ltac:(by apply (bool_decide_unpack _)) "/home/u/docs/sub/b.txt" " T");
    [by apply (bool_decide_unpack _)|left|done].
Defined.

(** ** The tag list of the window *)

(** X23. A tag shown in the window's list and double-clicked is removed
    when the question is answered with yes: the list shown afterwards is
    the one shown before without the first occurrence of that tag, and
    one save is signalled.  Answered with no, nothing changes. *)
Theorem MainWindow_remove_tag_shown (current_file item : string)
  (is_file : bool) (m : manager) :
  item ∈ update_tags_list current_file is_file m →
  update_tags_list current_file is_file
    (MainWindow_remove_tag current_file is_file item true m)
  = list_remove item (update_tags_list current_file is_file m)
  ∧ save_queue (MainWindow_remove_tag current_file is_file item true m)
    = S (save_queue m)
  ∧ MainWindow_remove_tag current_file is_file item false m = m.
Proof.
  unfold update_tags_list, MainWindow_remove_tag.
  destruct (bool_decide (current_file ≠ "") && is_file);
    [|by intros ?%elem_of_nil].
  intros Hin. pose proof (get_tags_present current_file item m Hin) as Hl.
  rewrite (remove_tag_lookup current_file item m _ Hl Hin).
  split; [|done]. unfold get_tags at 1. simpl.
  destruct (list_remove item (get_tags current_file m)).
  - by rewrite lookup_delete_eq.
  - by rewrite lookup_insert_eq.
Qed.

Lemma MainWindow_remove_tag_shown_witness :
  let m := add_tags "a.txt" ["red"; "blue"] (init_manager ∅) in
  update_tags_list "a.txt" true (MainWindow_remove_tag "a.txt" true "red" true m)
  = ["blue"].
Proof.
  destruct (MainWindow_remove_tag_shown "a.txt" "red" true
              (add_tags "a.txt" ["red"; "blue"] (init_manager ∅)))
    as [H _]; [by apply (bool_decide_unpack _)|].
  simpl. rewrite H. reflexivity.
Defined.

(** ** Searches before and after a mutation *)

(** X24. Adding tags never loses a search result and removing a tag
    never gains one: whatever the query, every path found before
    [add_tags] is found after it, and every path found after
    [remove_tag] was found before it. *)
Theorem search_monotone (Q : list string) (p : string) (T : list string)
  (t : string) (m : manager) :
  search_by_tags Q m ⊆ search_by_tags Q (add_tags p T m)
  ∧ search_by_tags Q (remove_tag p t m) ⊆ search_by_tags Q m.
Proof.
  split; intros k (tags & Hl & Hall)%elem_of_search_by_tags;
    apply elem_of_search_by_tags.
  - destruct (decide (PyPath.str_Path p = k)) as [<-|Hne].
    + exists (foldl append_tag tags T). split.
      * unfold add_tags. simpl. by rewrite tag_file_lookup, Hl.
      * intros q Hq.
        destruct (append_tags_spec T tags) as (news & -> & _).
        apply elem_of_app. left. by apply Hall.
    + exists tags. split; [|done]. unfold add_tags. simpl.
      by rewrite tag_file_lookup_ne.
  - revert Hl. unfold remove_tag.
    destruct (tags_db m !! PyPath.str_Path p) as [l|] eqn:E;
      [|intros Hl; by exists tags].
    case_decide as Hin; [|intros Hl; by exists tags]. simpl.
    destruct (decide (PyPath.str_Path p = k)) as [<-|Hne].
    + intros Hl. exists l. split; [done|]. intros q Hq.
      apply (list_remove_subseteq t). specialize (Hall q Hq).
      destruct (list_remove t l) as [|x l'] eqn:El.
      * by rewrite lookup_delete_eq in Hl.
      * rewrite lookup_insert_eq in Hl. by injection Hl as <-.
    + intros Hl. exists tags. split; [|done].
      destruct (list_remove t l).
      * rewrite lookup_delete_ne in Hl by done.
        by rewrite lookup_insert_ne in Hl.
      * by rewrite lookup_insert_ne in Hl.
Qed.
